(** * Cursor: the bridge between logical positions and the native selection

    A shallow embedding of [src/js/utils/cursor.js] (class [Cursor]) together
    with the part of the browser platform it drives: the DOM tree, DOM ranges
    and the window selection.  Methods of [Cursor] are programs of a small
    state-and-exception monad over the browser state; the collaborators that
    live in other files of the repository are modelled from the written
    specification and marked as such. *)

From stdpp Require Import base tactics option list strings.
From Stdlib Require Import Lia.

Set Default Proof Using "Type".
Set Warnings "-register-all".

(** ** The DOM tree *)

(** A DOM node is referred to by its address in the document tree: the list
    of child indices leading from the document node to it.  Reference
    equality [===] of the source is equality of addresses. *)
Definition Node : Type := list nat.

Inductive DomTree : Type :=
  | Element (childNodes : list DomTree)
  | TextNode (data : string).

(** A boundary point: a node and an offset into it. *)
Definition BoundaryPoint : Type := (Node * nat)%type.

Fixpoint subtree (d : DomTree) (n : Node) : option DomTree :=
  match n with
  | [] => Some d
  | i :: rest =>
      match d with
      | Element cs =>
          match cs !! i with
          | Some c => subtree c rest
          | None => None
          end
      | TextNode _ => None
      end
  end.

(** The DOM "length" of a node: number of children, or of characters. *)
Definition tree_length (d : DomTree) : nat :=
  match d with
  | Element cs => length cs
  | TextNode s => String.length s
  end.

Definition node_length (doc : DomTree) (n : Node) : option nat :=
  tree_length <$> subtree doc n.

Definition dom_firstChild (doc : DomTree) (n : Node) : option Node :=
  match subtree doc n with
  | Some (Element (_ :: _)) => Some (n ++ [0])
  | _ => None
  end.

Definition dom_lastChild (doc : DomTree) (n : Node) : option Node :=
  match subtree doc n with
  | Some (Element (c :: cs)) => Some (n ++ [length cs])
  | _ => None
  end.

(** Document order of boundary points.  With nodes given by address, the
    DOM standard's "position of a boundary point relative to another" is the
    lexicographic order of [address ++ [offset]], a proper prefix coming
    first. *)
Fixpoint path_compare (a b : list nat) : comparison :=
  match a, b with
  | [], [] => Eq
  | [], _ :: _ => Lt
  | _ :: _, [] => Gt
  | x :: a', y :: b' =>
      match Nat.compare x y with
      | Eq => path_compare a' b'
      | c => c
      end
  end.

Definition bp_key (p : BoundaryPoint) : list nat := p.1 ++ [p.2].

Definition bp_compare (p q : BoundaryPoint) : comparison :=
  path_compare (bp_key p) (bp_key q).

Definition bp_before (p q : BoundaryPoint) : bool :=
  match bp_compare p q with Lt => true | _ => false end.

Definition bp_after (p q : BoundaryPoint) : bool :=
  match bp_compare p q with Gt => true | _ => false end.

Definition bp_eqb (p q : BoundaryPoint) : bool :=
  match bp_compare p q with Eq => true | _ => false end.

(** A boundary point the platform accepts: the node is in the document and
    the offset does not exceed its length. *)
Definition valid_bp (doc : DomTree) (p : BoundaryPoint) : bool :=
  match node_length doc p.1 with
  | Some len => bool_decide (p.2 ≤ len)
  | None => false
  end.

(** ** DOM ranges and the window selection *)

Record DomRange : Type := mkDomRange {
  startContainer : Node;
  startOffset : nat;
  endContainer : Node;
  endOffset : nat
}.

Definition range_start (r : DomRange) : BoundaryPoint :=
  (startContainer r, startOffset r).
Definition range_end (r : DomRange) : BoundaryPoint :=
  (endContainer r, endOffset r).

(** [range.collapsed] *)
Definition collapsed (r : DomRange) : bool :=
  bp_eqb (range_start r) (range_end r).

(** The selection of the Selection API: at most one associated range and a
    direction; anchor and focus are the range's ends read in that
    direction. *)
Inductive SelectionDirection : Type := Forwards | Backwards.

Record Selection : Type := mkSelection {
  sel_range : option DomRange;
  sel_direction : SelectionDirection
}.

Definition rangeCount (s : Selection) : nat :=
  match sel_range s with Some _ => 1 | None => 0 end.

Definition sel_anchor (s : Selection) : option BoundaryPoint :=
  r ← sel_range s;
  Some (match sel_direction s with
        | Forwards => range_start r
        | Backwards => range_end r
        end).

Definition sel_focus (s : Selection) : option BoundaryPoint :=
  r ← sel_range s;
  Some (match sel_direction s with
        | Forwards => range_end r
        | Backwards => range_start r
        end).

Definition anchorNode (s : Selection) : option Node := fst <$> sel_anchor s.
Definition anchorOffset (s : Selection) : option nat := snd <$> sel_anchor s.
Definition focusNode (s : Selection) : option Node := fst <$> sel_focus s.
Definition focusOffset (s : Selection) : option nat := snd <$> sel_focus s.

Definition empty_selection : Selection :=
  {| sel_range := None; sel_direction := Forwards |}.

(** ** Browser state and the monad of cursor operations *)

(** [extend_supported] is the capability the source probes with
    [!!this.selection.extend]. *)
Record World : Type := mkWorld {
  document : DomTree;
  native_selection : Selection;
  extend_supported : bool
}.

Inductive Err : Type := TypeError | IndexSizeError | InvalidStateError.

(** Outcome of running an operation: a value or a thrown exception, with
    the browser state left behind. *)
Inductive Res (A : Type) : Type :=
  | Ok (a : A) (w : World)
  | Throw (e : Err) (w : World).
Arguments Ok {A} a w.
Arguments Throw {A} e w.

Definition M (A : Type) : Type := World → Res A.

Definition ret {A} (a : A) : M A := λ w, Ok a w.
Definition bind {A B} (m : M A) (k : A → M B) : M B := λ w,
  match m w with
  | Ok a w' => k a w'
  | Throw e w' => Throw e w'
  end.

Declare Scope cursor_scope.
Delimit Scope cursor_scope with cursor.
Notation "x <- c1 ;; c2" := (bind c1 (λ x, c2))
  (at level 20, c1 at level 99, c2 at level 200, only parsing)
  : cursor_scope.
Notation "' p <- c1 ;; c2" := (bind c1 (λ x, match x with p => c2 end))
  (at level 20, p pattern, c1 at level 99, c2 at level 200, only parsing)
  : cursor_scope.
Notation "c1 ;;; c2" := (bind c1 (λ _, c2))
  (at level 100, c2 at level 200, only parsing, right associativity)
  : cursor_scope.
Open Scope cursor_scope.

Definition throw {A} (e : Err) : M A := λ w, Throw e w.
Definition gets {A} (f : World → A) : M A := λ w, Ok (f w) w.

(** State left behind by an outcome. *)
Definition final_world {A} (r : Res A) : World :=
  match r with Ok _ w => w | Throw _ w => w end.

(** The browser state with the selection replaced. *)
Definition set_selection (s : Selection) (w : World) : World :=
  {| document := document w;
     native_selection := s;
     extend_supported := extend_supported w |}.

Definition modify_selection (f : Selection → Selection) : M unit :=
  λ w, Ok () (set_selection (f (native_selection w)) w).

(** ** Platform primitives used by the cursor *)

(** [window.getSelection()] *)
Definition getSelection : M Selection := gets native_selection.

(** [document.createRange()]: both ends at the start of the document. *)
Definition createRange : M DomRange := ret (mkDomRange [] 0 [] 0).

(** Argument check shared by [setStart], [setEnd] and [extend]: the node
    must be a node of the document (else [TypeError]) and the offset must
    not exceed its length (else [IndexSizeError]). *)
Definition check_bp (node : option Node) (offset : nat) : M BoundaryPoint :=
  match node with
  | None => throw TypeError
  | Some n =>
      doc <- gets document;;
      match node_length doc n with
      | None => throw TypeError
      | Some len =>
          if bool_decide (offset ≤ len) then ret (n, offset)
          else throw IndexSizeError
      end
  end.

(** [range.setStart(node, offset)].  DOM standard, "set the start": if the
    boundary point is after the range's end, set the range's end to it; then
    set the range's start to it. *)
Definition setStart (r : DomRange) (node : option Node) (offset : nat)
  : M DomRange :=
  bp <- check_bp node offset;;
  ret (if bp_after bp (range_end r)
        then mkDomRange bp.1 bp.2 bp.1 bp.2
        else mkDomRange bp.1 bp.2 (endContainer r) (endOffset r)).

(** [range.setEnd(node, offset)].  DOM standard, "set the end": if the
    boundary point is before the range's start, set the range's start to it;
    then set the range's end to it. *)
Definition setEnd (r : DomRange) (node : option Node) (offset : nat)
  : M DomRange :=
  bp <- check_bp node offset;;
  ret (if bp_before bp (range_start r)
        then mkDomRange bp.1 bp.2 bp.1 bp.2
        else mkDomRange (startContainer r) (startOffset r) bp.1 bp.2).

(** [selection.addRange(range)]: ignored when a range is already
    associated; otherwise the range becomes the selection, forwards. *)
Definition addRange (r : DomRange) : M unit :=
  modify_selection (λ s,
    match sel_range s with
    | Some _ => s
    | None => {| sel_range := Some r; sel_direction := Forwards |}
    end).

(** [selection.extend(node, offset)].  Selection API: the anchor stays, the
    focus becomes the given point, the range runs between them in document
    order, and the direction is backwards exactly when the new focus is
    before the anchor.  Throws [InvalidStateError] on an empty selection. *)
Definition extend (node : option Node) (offset : nat) : M unit :=
  bp <- check_bp node offset;;
  s <- getSelection;;
  match sel_anchor s with
  | None => throw InvalidStateError
  | Some a =>
      modify_selection (λ _,
        if bp_after a bp
        then {| sel_range := Some (mkDomRange bp.1 bp.2 a.1 a.2);
                sel_direction := Backwards |}
        else {| sel_range := Some (mkDomRange a.1 a.2 bp.1 bp.2);
                sel_direction := Forwards |})
  end.

(** [selection.removeAllRanges()] *)
Definition removeAllRanges : M unit := modify_selection (λ _, empty_selection).

(** [selection.getRangeAt(0)], only called when [rangeCount] is not 0. *)
Definition getRangeAt0 (s : Selection) : M DomRange :=
  match sel_range s with
  | Some r => ret r
  | None => throw IndexSizeError
  end.

(** Characters of a text node at address [here] that lie between two
    boundary points, scanning from character index [i]. *)
Fixpoint text_slice (lo hi : BoundaryPoint) (here : Node) (i : nat)
    (s : string) : string :=
  match s with
  | EmptyString => EmptyString
  | String ch s' =>
      let rest := text_slice lo hi here (S i) s' in
      if negb (bp_before (here, i) lo) && negb (bp_after (here, S i) hi)
      then String ch rest else rest
  end.

Fixpoint tree_text (lo hi : BoundaryPoint) (here : Node) (d : DomTree)
    : string :=
  match d with
  | TextNode s => text_slice lo hi here 0 s
  | Element cs =>
      (fix children (i : nat) (cs : list DomTree) : string :=
         match cs with
         | [] => EmptyString
         | ch :: cs' =>
             String.append (tree_text lo hi (here ++ [i]) ch)
                           (children (S i) cs')
         end) 0 cs
  end.

(** [selection.toString()]: the text covered by the selection. *)
Definition selection_toString : M string :=
  s <- getSelection;;
  doc <- gets document;;
  ret (match sel_range s with
        | Some r => tree_text (range_start r) (range_end r) [] doc
        | None => EmptyString
        end).

(** [node.firstChild] and [node.lastChild], read from the live document. *)
Definition firstChild (n : Node) : M (option Node) :=
  doc <- gets document;; ret (dom_firstChild doc n).
Definition lastChild (n : Node) : M (option Node) :=
  doc <- gets document;; ret (dom_lastChild doc n).

(** ** The logical document *)

(** Modelled from the spec: the render node ("mapping entry between a
    logical node and its rendered native representation"; its class is not
    among the sources), with the two fields [cursor.js] reads.  In the
    source the object graph is cyclic ([section.renderNode.postNode] is the
    section again); the back pointer of a render node reached from its own
    logical node is cut by taking [P := unit]. *)
Record RenderNode (P : Type) : Type := mkRenderNode {
  postNode : P;
  element : Node
}.
Arguments mkRenderNode {P} _ _.
Arguments postNode {P} _.
Arguments element {P} _.

(** Modelled from the spec: the marker ("inline leaf unit of text/formatting
    within a section"; its class is not among the sources), with its render
    node and its length in characters.  These are rendered markers: the
    render node and its element are there.  What the source does with a
    marker whose [renderNode] is missing (reading through it throws) is
    outside this development. *)
Module Marker.
Record t : Type := mk {
  renderNode : RenderNode unit;
  length : nat
}.
End Marker.

(** Modelled from the spec: the section ("top-level block unit of the
    document"; its classes are not among the sources), with the flags and
    fields [cursor.js] reads: [isCardSection], [isBlank], [length],
    [renderNode], and the marker sequence.  These are rendered sections: the
    render node and its element are there.  What the source does with a
    section whose [renderNode] is missing (reading through it throws) is
    outside this development. *)
Module PostSection.
Record t : Type := mk {
  isCardSection : bool;
  isBlank : bool;
  length : nat;
  renderNode : RenderNode unit;
  markers : list Marker.t
}.
End PostSection.

(** The logical node a render node points back to: a section, or a marker
    with the section it belongs to. *)
Inductive PostNode : Type :=
  | SectionNode (s : PostSection.t)
  | MarkerNode (m : Marker.t) (parent : PostSection.t).

(** [postNode.isCardSection]: markers do not carry the flag. *)
Definition postNode_isCardSection (p : PostNode) : bool :=
  match p with
  | SectionNode s => PostSection.isCardSection s
  | MarkerNode _ _ => false
  end.

(** Modelled from the spec: the logical document (its class is not among
    the sources), "ordered sections containing markers". *)
Record Post : Type := mkPost { sections : list PostSection.t }.

(** Modelled from the spec: the render tree (not among the sources), an
    external collaborator with the contract
    "findRenderNodeFromElement(nativeElement) -> renderNode | null".  The
    lookup is taken as given. *)
Record RenderTree : Type := mkRenderTree {
  findRenderNodeFromElement : Node → option (RenderNode PostNode)
}.

(** Modelled from the spec: [DIRECTION] of [utils/key] (not among the
    sources), "a direction enumeration {FORWARD, BACKWARD}". *)
Inductive DIRECTION : Type := FORWARD | BACKWARD.

(** Modelled from the spec: "Position: {section, offset, marker?,
    offsetInMarker?}" ([utils/cursor/position] is not among the sources). *)
Record Position : Type := mkPosition {
  section : PostSection.t;
  offset : nat;
  marker : option Marker.t;
  offsetInMarker : nat
}.

(** Modelled from the spec: "Range: {head, tail, direction}"
    ([utils/cursor/range] is not among the sources).  The direction may be
    left out; a range whose endpoints are absent is the "no cursor"
    sentinel. *)
Record Range : Type := mkRange {
  head : option Position;
  tail : option Position;
  direction : option DIRECTION
}.

Global Instance unit_render_node_eq_dec : EqDecision (RenderNode unit).
Proof. solve_decision. Defined.
Global Instance marker_eq_dec : EqDecision Marker.t.
Proof. solve_decision. Defined.
Global Instance post_section_eq_dec : EqDecision PostSection.t.
Proof. solve_decision. Defined.
Global Instance DIRECTION_eq_dec : EqDecision DIRECTION.
Proof. solve_decision. Defined.

(** Modelled from the spec: the owning editor (not among the sources),
    "from which the editable root element, render tree, and logical document
    root are derived". *)
Module Editor.
Record t : Type := mk {
  element : Node;
  _renderTree : RenderTree;
  post : Post
}.
End Editor.

(** ** Collaborators from other files of the repository *)

(** Modelled from the spec: [clearSelection] of [utils/selection-utils]
    (not among the sources), "removes native selection". *)
Definition selection_utils_clearSelection : M unit := removeAllRanges.

(** Modelled from the spec: [containsNode(root, candidate)] of
    [utils/dom-utils] (not among the sources): the candidate lies in the
    subtree of [root], [root] itself included.  An absent candidate is
    contained nowhere. *)
Definition containsNode (root : Node) (candidate : option Node) : bool :=
  match candidate with
  | Some c => bool_decide (root `prefix_of` c)
  | None => false
  end.

Module Compared.
Record t : Type := mk {
  headNode : Node;
  headOffset : nat;
  tailNode : Node;
  tailOffset : nat;
  direction : DIRECTION
}.
End Compared.

(** Modelled from the spec: [comparePosition(selection)] of
    [utils/selection-utils] (not among the sources): "reads native
    anchor/focus, determines head/tail and direction via a document-order
    comparison primitive".  The anchor coming after the focus is a backward
    selection; a selection without anchor cannot be compared. *)
Definition comparePosition (s : Selection) : M Compared.t :=
  match sel_anchor s, sel_focus s with
  | Some a, Some f =>
      ret (if bp_after a f
            then Compared.mk f.1 f.2 a.1 a.2 BACKWARD
            else Compared.mk a.1 a.2 f.1 f.2 FORWARD)
  | _, _ => throw TypeError
  end.

(** Modelled from the spec: resolution of a section offset "within the
    section's marker sequence": the first marker that reaches the offset,
    and the offset left inside it. *)
Fixpoint markerPositionAtOffset (ms : list Marker.t) (o : nat)
    : option Marker.t * nat :=
  match ms with
  | [] => (None, o)
  | m :: rest =>
      if bool_decide (o ≤ Marker.length m) then (Some m, o)
      else markerPositionAtOffset rest (o - Marker.length m)
  end.

(** Modelled from the spec: the constructor [new Position(section, offset)]
    of [utils/cursor/position] (not among the sources).  Card and blank
    sections carry no marker. *)
Definition Position_new (s : PostSection.t) (o : nat) : Position :=
  if PostSection.isCardSection s || PostSection.isBlank s
  then mkPosition s o None 0
  else let mo := markerPositionAtOffset (PostSection.markers s) o in
       mkPosition s o mo.1 mo.2.

(** Length of the markers of a section that come before marker [m]. *)
Fixpoint offsetOfMarker (ms : list Marker.t) (m : Marker.t) : nat :=
  match ms with
  | [] => 0
  | m' :: rest =>
      if decide (m' = m) then 0 else Marker.length m' + offsetOfMarker rest m
  end.

(** Modelled from the spec: [Position.fromNode(renderTree, node, offset)]
    of [utils/cursor/position] (not among the sources): "resolves the
    logical node owning the native node via the render tree, then expresses
    the native offset in logical terms (marker + offsetInMarker for text
    content; 0/length boundary for atomic sections)"; a node that maps to no
    render node gives no position.  A section's own element resolves to the
    start of the section. *)
Definition Position_fromNode (rt : RenderTree) (node : Node) (off : nat)
  : M (option Position) :=
  match findRenderNodeFromElement rt node with
  | None => ret None
  | Some rn =>
      match postNode rn with
      | MarkerNode m s =>
          ret (Some (mkPosition s
                        (offsetOfMarker (PostSection.markers s) m + off)
                        (Some m) off))
      | SectionNode s =>
          if PostSection.isCardSection s then
            first <- firstChild (element rn);;
            last <- lastChild (element rn);;
            let boundary :=
              if decide (Some node = first) then 0
              else if decide (Some node = last) then PostSection.length s
              else if decide (off = 0) then 0
              else PostSection.length s in
            ret (Some (mkPosition s boundary None 0))
          else ret (Some (Position_new s 0))
      end
  end.

(** Modelled from the spec: [Range.emptyRange()] of [utils/cursor/range]
    (not among the sources): "no endpoints". *)
Definition emptyRange : Range := mkRange None None None.

(** Modelled from the spec: positions "are ordered by document position
    (section order, then offset)"; sections are ordered as their rendered
    elements are in the document. *)
Definition position_after (p q : Position) : bool :=
  match path_compare (element (PostSection.renderNode (section p)))
                     (element (PostSection.renderNode (section q))) with
  | Gt => true
  | Lt => false
  | Eq => bool_decide (offset q < offset p)
  end.

(** Modelled from the spec: [Range.create(headSection, headOffset,
    tailSection, tailOffset)] of [utils/cursor/range] (not among the
    sources): "builds two Positions and normalizes storage order to document
    order"; the direction records whether the endpoints came reversed. *)
Definition Range_create (headSection : PostSection.t) (headOffset : nat)
    (tailSection : PostSection.t) (tailOffset : nat) : Range :=
  let h := Position_new headSection headOffset in
  let t := Position_new tailSection tailOffset in
  if position_after h t
  then mkRange (Some t) (Some h) (Some BACKWARD)
  else mkRange (Some h) (Some t) (Some FORWARD).

Fixpoint drop_until (a : PostSection.t) (l : list PostSection.t)
    : list PostSection.t :=
  match l with
  | [] => []
  | x :: rest => if decide (x = a) then l else drop_until a rest
  end.

Fixpoint take_through (b : PostSection.t) (l : list PostSection.t)
    : list PostSection.t :=
  match l with
  | [] => []
  | x :: rest => if decide (x = b) then [x] else x :: take_through b rest
  end.

(** Modelled from the spec: [sections.readRange(first, last)] (the linked
    list of sections is not among the sources): the "ordered sequence of
    sections spanned ... (inclusive)". *)
Definition readRange (l : list PostSection.t) (first last : PostSection.t)
  : list PostSection.t :=
  take_through last (drop_until first l).

(** ** The class [Cursor] *)

Module Cursor.

Record t : Type := mk {
  editor : Editor.t;
  renderTree : RenderTree;
  post : Post
}.

(** [constructor(editor)] *)
Definition new (editor : Editor.t) : t :=
  {| editor := editor;
     renderTree := Editor._renderTree editor;
     post := Editor.post editor |}.

Definition clearSelection (this : t) : M unit :=
  selection_utils_clearSelection.

(** [get selection()] *)
Definition selection (this : t) : M Selection := getSelection.

(** [get _selectionRange()] *)
Definition _selectionRange (this : t) : M (option DomRange) :=
  selection <- selection this;;
  if decide (rangeCount selection = 0) then ret None
  else range <- getRangeAt0 selection;; ret (Some range).

Definition _hasSelection (this : t) : M bool :=
  let element := Editor.element (editor this) in
  _selectionRange <- _selectionRange this;;
  match _selectionRange with
  | None => ret false
  | Some range =>
      if collapsed range then ret false
      else
        s <- selection this;;
        if containsNode element (anchorNode s)
        then s <- selection this;; ret (containsNode element (focusNode s))
        else ret false
  end.

Definition _hasCollapsedSelection (this : t) : M bool :=
  _selectionRange <- _selectionRange this;;
  match _selectionRange with
  | None => ret false
  | Some _ =>
      let element := Editor.element (editor this) in
      s <- selection this;;
      ret (containsNode element (anchorNode s))
  end.

Definition hasCursor (this : t) : M bool :=
  collapsed <- _hasCollapsedSelection this;;
  if collapsed then ret true else _hasSelection this.

Definition hasSelection (this : t) : M bool := _hasSelection this.

Definition isAddressable (this : t) (elem : Node) : M bool :=
  let renderTree := renderTree this in
  let renderNode := findRenderNodeFromElement renderTree elem in
  match renderNode with
  | Some rn =>
      if postNode_isCardSection (postNode rn) then
        let renderedElement := element rn in
        if decide (elem ≠ renderedElement) then
          first <- firstChild renderedElement;;
          if decide (Some elem ≠ first) then
            last <- lastChild renderedElement;;
            if decide (Some elem ≠ last) then ret false
            else ret true
          else ret true
        else ret true
      else ret true
  | None => ret false
  end.

(** [get offsets()] *)
Definition offsets (this : t) : M Range :=
  has <- hasCursor this;;
  if negb has then ret emptyRange
  else
    selection <- selection this;;
    let renderTree := renderTree this in
    cmp <- comparePosition selection;;
    headPosition <- Position_fromNode renderTree
                      (Compared.headNode cmp) (Compared.headOffset cmp);;
    tailPosition <- Position_fromNode renderTree
                      (Compared.tailNode cmp) (Compared.tailOffset cmp);;
    ret (mkRange headPosition tailPosition (Some (Compared.direction cmp))).

(** [get activeSections()]; reading [.section] of an absent endpoint
    throws. *)
Definition activeSections (this : t) : M (list PostSection.t) :=
  has <- hasCursor this;;
  if negb has then ret []
  else
    range <- offsets this;;
    match head range, tail range with
    | Some head, Some tail =>
        ret (readRange (sections (post this)) (section head) (section tail))
    | _, _ => throw TypeError
    end.

(** [_findNodeForPosition(position)], for positions of rendered sections
    and markers; the node is [null] when a card has no rendered child, and
    reading through an absent position or marker throws. *)
Definition _findNodeForPosition (this : t) (position : option Position)
  : M (option Node * nat) :=
  match position with
  | None => throw TypeError
  | Some position =>
      let section := section position in
      if PostSection.isCardSection section then
        let offset' := 0 in
        if decide (offset position = 0) then
          node <- firstChild (element (PostSection.renderNode section));;
          ret (node, offset')
        else
          node <- lastChild (element (PostSection.renderNode section));;
          ret (node, offset')
      else if PostSection.isBlank section then
        ret (Some (element (PostSection.renderNode section)), 0)
      else
        match marker position with
        | None => throw TypeError
        | Some marker =>
            ret (Some (element (Marker.renderNode marker)),
                  offsetInMarker position)
        end
  end.

(** [_moveToNode(node, offset, endNode, endOffset, direction = FORWARD)] *)
Definition _moveToNode (this : t) (node : option Node) (offset : nat)
    (endNode : option Node) (endOffset : nat) (direction : option DIRECTION)
  : M unit :=
  let direction := default FORWARD direction in
  clearSelection this;;;
  let '(node, offset, endNode, endOffset) :=
    if decide (direction = BACKWARD)
    then (endNode, endOffset, node, offset)
    else (node, offset, endNode, endOffset) in
  range <- createRange;;
  range <- setStart range node offset;;
  has_extend <- gets extend_supported;;
  if bool_decide (direction = BACKWARD) && has_extend then
    addRange range;;;
    extend endNode endOffset
  else
    range <- setEnd range endNode endOffset;;
    addRange range.

Definition selectRange (this : t) (range : Range) : M unit :=
  '(headNode, headOffset) <- _findNodeForPosition this (head range);;
  '(tailNode, tailOffset) <- _findNodeForPosition this (tail range);;
  _moveToNode this headNode headOffset tailNode tailOffset (direction range).

Definition selectedText (this : t) : M string := selection_toString.

(** [new Range(position, position)]: no direction given. *)
Definition moveToPosition (this : t) (position : Position) : M unit :=
  selectRange this (mkRange (Some position) (Some position) None).

(** [moveToSection(section, offsetInSection = 0)] *)
Definition moveToSection (this : t) (section : PostSection.t)
    (offsetInSection : option nat) : M unit :=
  moveToPosition this (Position_new section (default 0 offsetInSection)).

(** [selectSections(sections)].  On an empty array both [sections[0]] and
    [sections[sections.length - 1]] (index -1; here the truncated
    subtraction reads index 0, which holds nothing either) are [undefined],
    and reading [tailSection.length] throws before anything else happens. *)
Definition selectSections (this : t) (sections : list PostSection.t)
  : M unit :=
  let headSection := sections !! 0 in
  let tailSection := sections !! (length sections - 1) in
  match tailSection, headSection with
  | Some tailSection, Some headSection =>
      let range := Range_create headSection 0
                     tailSection (PostSection.length tailSection) in
      selectRange this range
  | _, _ => throw TypeError
  end.

End Cursor.

(** ** The documented condition for a cursor

    The doc comment of [hasCursor] reads: "true when there is either a
    collapsed cursor in the editor's element or a selection that is
    contained in the editor's element".  This is that condition, written
    down for comparison with what the method computes. *)
Definition documented_hasCursor (this : Cursor.t) (w : World) : Prop :=
  let s := native_selection w in
  let root := Editor.element (Cursor.editor this) in
  (∃ r, sel_range s = Some r ∧ collapsed r = true ∧
        containsNode root (anchorNode s) = true) ∨
  (∃ r, sel_range s = Some r ∧ collapsed r = false ∧
        containsNode root (anchorNode s) = true ∧
        containsNode root (focusNode s) = true).

(** ** A rendered document used for the worked examples

    Sections [P1("AB"), Card, P2("CD")] rendered inside the editor element,
    next to an element that is outside the editor:
<<
    document
      [0] editor element
        [0;0] P1      [0;0;0] text "AB"
        [0;1] Card    [0;1;0] placeholder, [0;1;1] card content,
                      [0;1;2] placeholder
        [0;2] P2      [0;2;0] text "CD"
      [1] an element outside the editor
        [1;0] text "outside"
>> *)
Module Scenario.

Definition doc : DomTree :=
  Element
    [ Element
        [ Element [TextNode "AB"];
          Element [TextNode "|"; Element [TextNode "card"]; TextNode "|"];
          Element [TextNode "CD"] ];
      Element [TextNode "outside"] ].

Definition mAB : Marker.t := Marker.mk (mkRenderNode () [0; 0; 0]) 2.
Definition mCD : Marker.t := Marker.mk (mkRenderNode () [0; 2; 0]) 2.

Definition P1 : PostSection.t :=
  PostSection.mk false false 2 (mkRenderNode () [0; 0]) [mAB].
Definition Card : PostSection.t :=
  PostSection.mk true false 1 (mkRenderNode () [0; 1]) [].
Definition P2 : PostSection.t :=
  PostSection.mk false false 2 (mkRenderNode () [0; 2]) [mCD].

(** The render tree's lookup: every node of the card maps to the card. *)
Definition lookup (n : Node) : option (RenderNode PostNode) :=
  match n with
  | [0; 0] => Some (mkRenderNode (SectionNode P1) [0; 0])
  | [0; 0; 0] => Some (mkRenderNode (MarkerNode mAB P1) [0; 0; 0])
  | 0 :: 1 :: _ => Some (mkRenderNode (SectionNode Card) [0; 1])
  | [0; 2] => Some (mkRenderNode (SectionNode P2) [0; 2])
  | [0; 2; 0] => Some (mkRenderNode (MarkerNode mCD P2) [0; 2; 0])
  | _ => None
  end.

Definition editor : Editor.t :=
  Editor.mk [0] (mkRenderTree lookup) (mkPost [P1; Card; P2]).

Definition cursor : Cursor.t := Cursor.new editor.

(** No selection yet; one browser with [selection.extend], one without. *)
Definition world : World := mkWorld doc empty_selection true.
Definition world_without_extend : World := mkWorld doc empty_selection false.

(** A selection dragged from inside "AB" to the text outside the editor. *)
Definition straddling_selection : Selection :=
  {| sel_range := Some (mkDomRange [0; 0; 0] 1 [1; 0] 3);
     sel_direction := Forwards |}.

(** A selection that lies wholly in the text outside the editor. *)
Definition outside_selection : Selection :=
  {| sel_range := Some (mkDomRange [1; 0] 1 [1; 0] 3);
     sel_direction := Forwards |}.

(** The backward drag of the specification: from offset 2 of P2 back to
    offset 0 of P1, stored head first. *)
Definition start_of_P1 : Position := Position_new P1 0.
Definition end_of_P2 : Position := Position_new P2 2.
Definition backward_drag : Range :=
  mkRange (Some start_of_P1) (Some end_of_P2) (Some BACKWARD).

(** A caret inside "CD" that claims to be backward. *)
Definition middle_of_P2 : Position := Position_new P2 1.
Definition backward_caret : Range :=
  mkRange (Some middle_of_P2) (Some middle_of_P2) (Some BACKWARD).
Definition forward_caret : Range :=
  mkRange (Some middle_of_P2) (Some middle_of_P2) (Some FORWARD).

(** A selection from the start of "AB" to the end of "CD", inside the
    editor. *)
Definition inside_selection : Selection :=
  {| sel_range := Some (mkDomRange [0; 0; 0] 0 [0; 2; 0] 2);
     sel_direction := Forwards |}.

(** A position in P1 whose offset resolves to no marker. *)
Definition beyond_P1 : Position := mkPosition P1 5 None 0.

(** A section rendered in the element outside the editor (as a section of
    another editor on the page would be). *)
Definition mOut : Marker.t := Marker.mk (mkRenderNode () [1; 0]) 7.
Definition POut : PostSection.t :=
  PostSection.mk false false 7 (mkRenderNode () [1]) [mOut].
Definition start_of_POut : Position := mkPosition POut 0 (Some mOut) 0.
Definition end_of_POut : Position := mkPosition POut 7 (Some mOut) 7.

End Scenario.

(** ** Properties of operations

    The notions in which the results below are stated. *)

(** An operation is read-only when it leaves the browser state as it found
    it, whether it returns or throws. *)
Definition read_only {A} (m : M A) : Prop :=
  ∀ w, final_world (m w) = w.

(** An operation that leaves the browser state alone and whose outcome is
    the same in any two states with the same document and the same platform
    capability, whatever their selections. *)
Definition document_only {A} (m : M A) : Prop :=
  ∀ w w', document w = document w' →
          extend_supported w = extend_supported w' →
    match m w with
    | Ok a v => v = w ∧ m w' = Ok a w'
    | Throw e v => v = w ∧ m w' = Throw e w'
    end.

(** An operation that, when it returns, has replaced the native selection
    without regard to the one it found (it would have ended in the same
    state from any other selection), and has changed nothing else. *)
Definition installs_selection (m : M unit) : Prop :=
  ∀ w w', m w = Ok () w' →
    (∀ s, m (set_selection s w) = Ok () w') ∧
    document w' = document w ∧
    extend_supported w' = extend_supported w.

(** Operations that change nothing but the selection. *)
Definition selection_only {A} (m : M A) : Prop :=
  ∀ w, document (final_world (m w)) = document w ∧
       extend_supported (final_world (m w)) = extend_supported w.

(** A position rendered in the editor: it maps to the native endpoint [bp],
    which the platform accepts and which lies in the editor element, and
    [Position.fromNode] recovers the position from that endpoint (the round
    trip the specification requires of positions: valid offsets of text
    sections, the two boundaries of a card, the start of a blank
    section). *)
Definition rendered_endpoint (this : Cursor.t) (w : World) (p : Position)
    (bp : BoundaryPoint) : Prop :=
  Cursor._findNodeForPosition this (Some p) w = Ok (Some bp.1, bp.2) w ∧
  valid_bp (document w) bp = true ∧
  containsNode (Editor.element (Cursor.editor this)) (Some bp.1) = true ∧
  Position_fromNode (Cursor.renderTree this) bp.1 bp.2 w = Ok (Some p) w.

(** A position of the data model, rendered in the editor, with its native
    endpoint [bp].  The endpoint is one the platform accepts and lies in the
    editor element, and the position is of one of three kinds:
    - in a text section: it has a marker of the section, its section offset
      is the offset of that marker plus the offset in the marker, the
      endpoint is the marker's element at the offset in the marker, and the
      render tree maps that element back to the marker;
    - in a card section: it has no marker, the card's element has a first
      and a last child which the render tree maps back to the card, and the
      position is either at offset 0, with the first child as endpoint, or
      at the card's (nonzero) length, with the last child, distinct from the
      first, as endpoint;
    - in a blank section: it is at offset 0 without marker, the endpoint is
      the section's own element, and the render tree maps it back to the
      section. *)
Definition rendered_position (this : Cursor.t) (w : World) (p : Position)
    (bp : BoundaryPoint) : Prop :=
  let s := section p in
  let el := element (PostSection.renderNode s) in
  let rt := Cursor.renderTree this in
  valid_bp (document w) bp = true ∧
  containsNode (Editor.element (Cursor.editor this)) (Some bp.1) = true ∧
  ((PostSection.isCardSection s = false ∧ PostSection.isBlank s = false ∧
    ∃ m rn,
      marker p = Some m ∧
      offset p = offsetOfMarker (PostSection.markers s) m + offsetInMarker p ∧
      bp = (element (Marker.renderNode m), offsetInMarker p) ∧
      findRenderNodeFromElement rt bp.1 = Some rn ∧
      postNode rn = MarkerNode m s) ∨
   (PostSection.isCardSection s = true ∧
    marker p = None ∧ offsetInMarker p = 0 ∧
    ∃ first last rn,
      dom_firstChild (document w) el = Some first ∧
      dom_lastChild (document w) el = Some last ∧
      ((offset p = 0 ∧ bp = (first, 0)) ∨
       (offset p = PostSection.length s ∧ offset p ≠ 0 ∧ first ≠ last ∧
        bp = (last, 0))) ∧
      findRenderNodeFromElement rt bp.1 = Some rn ∧
      postNode rn = SectionNode s ∧ element rn = el) ∨
   (PostSection.isCardSection s = false ∧ PostSection.isBlank s = true ∧
    offset p = 0 ∧ marker p = None ∧ offsetInMarker p = 0 ∧
    bp = (el, 0) ∧
    ∃ rn, findRenderNodeFromElement rt el = Some rn ∧
          postNode rn = SectionNode s)).

(** The round trip as the specification states it: selecting [r] and
    reading [offsets] gives back the head and tail of [r], and its
    direction on a platform with [selection.extend]. *)
Definition round_trip_as_stated (this : Cursor.t) (w : World) (r : Range)
  : Prop :=
  ∃ w' r',
    Cursor.selectRange this r w = Ok () w' ∧
    Cursor.offsets this w' = Ok r' w' ∧
    head r' = head r ∧ tail r' = tail r ∧
    (extend_supported w = true → direction r' = direction r).

(** * Properties *)

(** ** Document order *)

Lemma path_compare_refl (a : list nat) : path_compare a a = Eq.
Proof.
  induction a as [|x a IH]; simpl; [done|].
  by rewrite Nat.compare_refl.
Qed.

Lemma path_compare_eq (a b : list nat) : path_compare a b = Eq → a = b.
Proof.
  revert b; induction a as [|x a IH]; intros [|y b]; simpl; try done.
  destruct (Nat.compare x y) eqn:Hxy; try done.
  apply Nat.compare_eq in Hxy. intros H. f_equal; auto.
Qed.

Lemma path_compare_antisym (a b : list nat) :
  path_compare b a = CompOpp (path_compare a b).
Proof.
  revert b; induction a as [|x a IH]; intros [|y b]; simpl; try done.
  rewrite (Nat.compare_antisym x y).
  destruct (Nat.compare x y); simpl; auto.
Qed.

Lemma bp_key_inj (p q : BoundaryPoint) : bp_key p = bp_key q → p = q.
Proof.
  destruct p as [n o], q as [n' o']. unfold bp_key; simpl. intros H.
  apply app_inj_tail in H as [-> ->]. done.
Qed.

Lemma bp_compare_refl (p : BoundaryPoint) : bp_compare p p = Eq.
Proof. apply path_compare_refl. Qed.

Lemma bp_compare_eq (p q : BoundaryPoint) : bp_compare p q = Eq → p = q.
Proof. intros H. by apply bp_key_inj, path_compare_eq. Qed.

Lemma bp_compare_antisym (p q : BoundaryPoint) :
  bp_compare q p = CompOpp (bp_compare p q).
Proof. apply path_compare_antisym. Qed.

(** Nothing comes before the start of the document. *)
Lemma bp_document_start_least (p : BoundaryPoint) :
  bp_compare p ([], 0) ≠ Lt.
Proof.
  destruct p as [[|i rest] o]; unfold bp_compare, bp_key; simpl.
  - destruct o; simpl; done.
  - destruct i; simpl; [|done]. destruct rest; simpl; done.
Qed.

Lemma bp_after_false_iff (p q : BoundaryPoint) :
  bp_after p q = false ↔ bp_compare p q ≠ Gt.
Proof. unfold bp_after. destruct (bp_compare p q); naive_solver. Qed.

Lemma bp_before_flip (p q : BoundaryPoint) : bp_before p q = bp_after q p.
Proof.
  unfold bp_before, bp_after. rewrite (bp_compare_antisym p q).
  destruct (bp_compare p q); done.
Qed.


(** ** Running monadic programs *)

Lemma bind_Ok {A B} (m : M A) (k : A → M B) (w w' : World) (a : A) :
  m w = Ok a w' → bind m k w = k a w'.
Proof. unfold bind. by intros ->. Qed.

Lemma bind_ret {A B} (a : A) (k : A → M B) (w : World) :
  bind (ret a) k w = k a w.
Proof. reflexivity. Qed.

Lemma bind_gets {A B} (f : World → A) (k : A → M B) (w : World) :
  bind (gets f) k w = k (f w) w.
Proof. reflexivity. Qed.

Lemma read_only_ret {A} (a : A) : read_only (ret a).
Proof. by intros w. Qed.

Lemma read_only_throw {A} (e : Err) : read_only (throw (A:=A) e).
Proof. by intros w. Qed.

Lemma read_only_gets {A} (f : World → A) : read_only (gets f).
Proof. by intros w. Qed.

Lemma read_only_bind {A B} (m : M A) (k : A → M B) :
  read_only m → (∀ a, read_only (k a)) → read_only (bind m k).
Proof.
  intros Hm Hk w. unfold bind. specialize (Hm w).
  destruct (m w) as [a w'|e w']; simpl in Hm; subst w'; [apply Hk|done].
Qed.

Create HintDb read_only discriminated.
#[local] Hint Resolve read_only_ret read_only_throw read_only_gets : read_only.

(** Closes a goal [read_only m] for a program built from reads only. *)
Ltac solve_read_only :=
  repeat first
    [ progress auto with read_only
    | apply read_only_bind; [|intros ?]
    | match goal with
      | |- read_only (match ?x with _ => _ end) => destruct x
      | |- read_only (if ?b then _ else _) => destruct b
      | |- read_only (let '(_, _) := ?x in _) => destruct x
      end ].

(** ** Presence of a cursor *)

Lemma selectionRange_run (this : Cursor.t) (w : World) :
  Cursor._selectionRange this w = Ok (sel_range (native_selection w)) w.
Proof.
  unfold Cursor._selectionRange, Cursor.selection, getSelection, gets, bind.
  unfold rangeCount, getRangeAt0.
  destruct (sel_range (native_selection w)); reflexivity.
Qed.

(** What [_hasCollapsedSelection] computes: it never looks at
    [range.collapsed]. *)
Lemma hasCollapsedSelection_run (this : Cursor.t) (w : World) :
  Cursor._hasCollapsedSelection this w =
  Ok (containsNode (Editor.element (Cursor.editor this))
        (anchorNode (native_selection w))) w.
Proof.
  unfold Cursor._hasCollapsedSelection.
  rewrite (bind_Ok _ _ _ _ _ (selectionRange_run this w)).
  unfold Cursor.selection, getSelection, gets, bind, ret.
  unfold anchorNode, sel_anchor.
  destruct (sel_range (native_selection w)) eqn:Hr; simpl;
    rewrite ?Hr; reflexivity.
Qed.

Lemma hasSelection_run (this : Cursor.t) (w : World) :
  Cursor._hasSelection this w =
  Ok (match sel_range (native_selection w) with
      | Some r =>
          negb (collapsed r)
          && containsNode (Editor.element (Cursor.editor this))
               (anchorNode (native_selection w))
          && containsNode (Editor.element (Cursor.editor this))
               (focusNode (native_selection w))
      | None => false
      end) w.
Proof.
  unfold Cursor._hasSelection.
  rewrite (bind_Ok _ _ _ _ _ (selectionRange_run this w)).
  destruct (sel_range (native_selection w)) as [r|] eqn:Hr; [|reflexivity].
  destruct (collapsed r); [reflexivity|].
  unfold Cursor.selection, getSelection, gets, bind, ret; simpl.
  destruct (containsNode _ (anchorNode _)); reflexivity.
Qed.

(** [hasCursor] is decided by the anchor alone. *)
Lemma hasCursor_run (this : Cursor.t) (w : World) :
  Cursor.hasCursor this w =
  Ok (containsNode (Editor.element (Cursor.editor this))
        (anchorNode (native_selection w))) w.
Proof.
  unfold Cursor.hasCursor.
  rewrite (bind_Ok _ _ _ _ _ (hasCollapsedSelection_run this w)).
  destruct (containsNode _ (anchorNode _)) eqn:Ha; [reflexivity|].
  rewrite hasSelection_run, Ha.
  destruct (sel_range _); [|reflexivity]. by rewrite andb_false_r.
Qed.

(** The documented condition is sufficient for [hasCursor]. *)
Lemma documented_hasCursor_sufficient (this : Cursor.t) (w : World) :
  documented_hasCursor this w → Cursor.hasCursor this w = Ok true w.
Proof.
  rewrite hasCursor_run.
  intros [(r & _ & _ & ->)|(r & _ & _ & -> & _)]; reflexivity.
Qed.

(** C3.  A non-collapsed selection whose anchor is inside the editor element
    and whose focus is outside it: [hasCursor] answers [true], although
    there is neither a collapsed cursor nor a selection contained in the
    editor element.  The documented "if and only if" fails in the "only if"
    direction. *)
Theorem hasCursor_straddling_selection :
  let w := set_selection Scenario.straddling_selection
             Scenario.world in
  Cursor.hasCursor Scenario.cursor w = Ok true w ∧
  collapsed (mkDomRange [0; 0; 0] 1 [1; 0] 3) = false ∧
  containsNode (Editor.element (Cursor.editor Scenario.cursor))
    (focusNode (native_selection w)) = false ∧
  ¬ documented_hasCursor Scenario.cursor w.
Proof.
  simpl. split; [reflexivity|]. split; [reflexivity|]. split; [reflexivity|].
  intros [(r & Hr & Hc & _)|(r & _ & _ & _ & Hf)].
  - simpl in Hr. injection Hr as <-. vm_compute in Hc. discriminate.
  - vm_compute in Hf. discriminate.
Qed.

(** C4.  When the anchor node and the focus node both lie outside the
    editor element, [hasCursor] returns [false]. *)
Theorem hasCursor_outside_root (this : Cursor.t) (w : World) :
  containsNode (Editor.element (Cursor.editor this))
    (anchorNode (native_selection w)) = false →
  containsNode (Editor.element (Cursor.editor this))
    (focusNode (native_selection w)) = false →
  Cursor.hasCursor this w = Ok false w.
Proof. intros Ha _. by rewrite hasCursor_run, Ha. Qed.

Lemma hasCursor_outside_root_witness :
  let w := set_selection Scenario.outside_selection
             Scenario.world in
  anchorNode (native_selection w) = Some [1; 0] ∧
  focusNode (native_selection w) = Some [1; 0] ∧
  Cursor.hasCursor Scenario.cursor w = Ok false w.
Proof.
  simpl. split; [reflexivity|]. split; [reflexivity|].
  apply (hasCursor_outside_root Scenario.cursor
           (set_selection Scenario.outside_selection
              Scenario.world)); reflexivity.
Defined.

(** C7.  Without a cursor, [offsets] returns the empty range and
    [activeSections] the empty sequence; both return normally and leave the
    browser state alone. *)
Theorem no_cursor_reads_empty (this : Cursor.t) (w : World) :
  Cursor.hasCursor this w = Ok false w →
  Cursor.offsets this w = Ok emptyRange w ∧
  Cursor.activeSections this w = Ok [] w.
Proof.
  intros H. unfold Cursor.offsets, Cursor.activeSections.
  rewrite !(bind_Ok _ _ _ _ _ H). split; reflexivity.
Qed.

Lemma no_cursor_reads_empty_witness :
  Cursor.hasCursor Scenario.cursor Scenario.world = Ok false Scenario.world ∧
  Cursor.offsets Scenario.cursor Scenario.world
    = Ok emptyRange Scenario.world ∧
  Cursor.activeSections Scenario.cursor Scenario.world
    = Ok [] Scenario.world.
Proof.
  split; [reflexivity|].
  apply (no_cursor_reads_empty Scenario.cursor Scenario.world). reflexivity.
Defined.

(** ** Addressable elements *)

(** C6.  [isAddressable(e)] returns normally, and returns [true] exactly
    when the render tree maps [e] to a render node and, if that render
    node's logical node is a card section, [e] is the card's rendered
    element, its first child or its last child.  Every other node that maps
    to a card gives [false]. *)
Theorem isAddressable_iff (this : Cursor.t) (e : Node) (w : World) :
  ∃ b, Cursor.isAddressable this e w = Ok b w ∧
    (b = true ↔
     ∃ rn, findRenderNodeFromElement (Cursor.renderTree this) e = Some rn ∧
       (postNode_isCardSection (postNode rn) = true →
        e = element rn ∨
        Some e = dom_firstChild (document w) (element rn) ∨
        Some e = dom_lastChild (document w) (element rn))).
Proof.
  unfold Cursor.isAddressable.
  destruct (findRenderNodeFromElement _ e) as [rn|] eqn:Hrn.
  2: { exists false. split; [reflexivity|]. split; [done|].
       by intros (rn & ? & _). }
  destruct (postNode_isCardSection (postNode rn)) eqn:Hcard.
  2: { exists true. split; [reflexivity|]. split; [|done].
       intros _. exists rn. split; [done|]. intros ?; congruence. }
  destruct (decide (e ≠ element rn)) as [Hne|Heq].
  2: { exists true. split; [reflexivity|]. split; [|done].
       intros _. exists rn. split; [done|]. intros _. left.
       by destruct (decide (e = element rn)). }
  unfold firstChild, lastChild, gets, bind, ret.
  destruct (decide (Some e ≠ dom_firstChild (document w) (element rn)))
    as [Hnf|Hf].
  2: { exists true. split; [reflexivity|]. split; [|done].
       intros _. exists rn. split; [done|]. intros _. right; left.
       by destruct (decide (Some e = dom_firstChild (document w) (element rn))). }
  destruct (decide (Some e ≠ dom_lastChild (document w) (element rn)))
    as [Hnl|Hl].
  2: { exists true. split; [reflexivity|]. split; [|done].
       intros _. exists rn. split; [done|]. intros _. right; right.
       by destruct (decide (Some e = dom_lastChild (document w) (element rn))). }
  exists false. split; [reflexivity|]. split; [done|].
  intros (rn' & Hrn' & H). injection Hrn' as <-.
  destruct (H Hcard) as [?|[?|?]]; done.
Qed.

(** The three addressable nodes of the card of the worked example, and a
    node inside the card's content that is not addressable. *)
Example isAddressable_card :
  Cursor.isAddressable Scenario.cursor [0; 1] Scenario.world
    = Ok true Scenario.world ∧
  Cursor.isAddressable Scenario.cursor [0; 1; 0] Scenario.world
    = Ok true Scenario.world ∧
  Cursor.isAddressable Scenario.cursor [0; 1; 2] Scenario.world
    = Ok true Scenario.world ∧
  Cursor.isAddressable Scenario.cursor [0; 1; 1] Scenario.world
    = Ok false Scenario.world ∧
  Cursor.isAddressable Scenario.cursor [0; 1; 1; 0] Scenario.world
    = Ok false Scenario.world ∧
  Cursor.isAddressable Scenario.cursor [1; 0] Scenario.world
    = Ok false Scenario.world.
Proof. repeat split; reflexivity. Qed.

(** ** From positions to native endpoints *)

(** C5.  For a position in a card section, [_findNodeForPosition] gives the
    card's first rendered child when the offset is 0 and its last rendered
    child for every other offset, always at native offset 0.  So when the
    card is rendered with two distinct boundary children and has nonzero
    length, offsets 0 and [length] map to distinct endpoints, while any
    offset strictly between maps to the endpoint of [length]. *)
Theorem card_position_endpoints (this : Cursor.t) (w : World)
    (s : PostSection.t) :
  PostSection.isCardSection s = true →
  let el := element (PostSection.renderNode s) in
  let first := dom_firstChild (document w) el in
  let last := dom_lastChild (document w) el in
  let find p := Cursor._findNodeForPosition this (Some p) w in
  (∀ p, section p = s →
     find p = Ok (if decide (offset p = 0) then first else last, 0) w) ∧
  (∀ p q, section p = s → section q = s →
     offset p = 0 → offset q = PostSection.length s →
     PostSection.length s ≠ 0 → first ≠ last →
     find p ≠ find q) ∧
  (∀ p q, section p = s → section q = s →
     0 < offset p < PostSection.length s → offset q = PostSection.length s →
     find p = find q).
Proof.
  intros Hcard el first last find.
  assert (Hfind : ∀ p, section p = s →
    find p = Ok (if decide (offset p = 0) then first else last, 0) w).
  { intros p Hp. unfold find, Cursor._findNodeForPosition.
    rewrite Hp, Hcard.
    destruct (decide (offset p = 0)); reflexivity. }
  split; [exact Hfind|]. split.
  - intros p q Hp Hq Hp0 Hql Hlen Hne.
    rewrite (Hfind p Hp), (Hfind q Hq).
    destruct (decide (offset p = 0)); [|done].
    destruct (decide (offset q = 0)); [lia|].
    intros H. injection H as H. done.
  - intros p q Hp Hq Hpo Hqo.
    rewrite (Hfind p Hp), (Hfind q Hq).
    destruct (decide (offset p = 0)); [lia|].
    destruct (decide (offset q = 0)); [lia|]. done.
Qed.

Lemma card_position_endpoints_witness :
  PostSection.isCardSection Scenario.Card = true ∧
  Cursor._findNodeForPosition Scenario.cursor
    (Some (mkPosition Scenario.Card 0 None 0)) Scenario.world
    = Ok (Some [0; 1; 0], 0) Scenario.world ∧
  Cursor._findNodeForPosition Scenario.cursor
    (Some (mkPosition Scenario.Card 1 None 0)) Scenario.world
    = Ok (Some [0; 1; 2], 0) Scenario.world.
Proof.
  split; [reflexivity|].
  pose proof (card_position_endpoints Scenario.cursor Scenario.world
                Scenario.Card eq_refl) as [H _].
  split.
  - exact (H (mkPosition Scenario.Card 0 None 0) eq_refl).
  - exact (H (mkPosition Scenario.Card 1 None 0) eq_refl).
Defined.

(** ** Selecting a run of sections *)

(** The worked example of the specification: selecting [P1; Card; P2] and
    reading the active sections back. *)
Example selectSections_then_activeSections :
  let w := set_selection
             {| sel_range := Some (mkDomRange [0; 0; 0] 0 [0; 2; 0] 2);
                sel_direction := Forwards |} Scenario.world in
  Cursor.selectSections Scenario.cursor
    [Scenario.P1; Scenario.Card; Scenario.P2] Scenario.world = Ok () w ∧
  Cursor.activeSections Scenario.cursor w
    = Ok [Scenario.P1; Scenario.Card; Scenario.P2] w.
Proof. split; reflexivity. Qed.

(** C10.  On the empty array [selectSections] throws a [TypeError] (it
    reads [.length] of an absent last element) before touching the
    selection: the browser state, and with it any cursor that was there, is
    left as it was rather than reset to "no cursor". *)
Theorem selectSections_empty_throws (this : Cursor.t) (w : World) :
  Cursor.selectSections this [] w = Throw TypeError w.
Proof. reflexivity. Qed.

(** A cursor present before the failed call is still there after it. *)
Example selectSections_empty_keeps_cursor :
  let w := set_selection
             {| sel_range := Some (mkDomRange [0; 2; 0] 1 [0; 2; 0] 1);
                sel_direction := Forwards |} Scenario.world in
  Cursor.moveToSection Scenario.cursor Scenario.P2 (Some 1) Scenario.world
    = Ok () w ∧
  Cursor.selectSections Scenario.cursor [] w = Throw TypeError w ∧
  Cursor.hasCursor Scenario.cursor w = Ok true w.
Proof. repeat split; reflexivity. Qed.

(** ** Operations that only consult the document *)

Lemma document_only_ret {A} (a : A) : document_only (ret a).
Proof. by intros w w' _ _. Qed.

Lemma document_only_throw {A} (e : Err) : document_only (throw (A:=A) e).
Proof. by intros w w' _ _. Qed.

Lemma document_only_gets_document : document_only (gets document).
Proof. intros w w' Hd _. unfold gets. by rewrite Hd. Qed.

Lemma document_only_gets_extend : document_only (gets extend_supported).
Proof. intros w w' _ He. unfold gets. by rewrite He. Qed.

Lemma document_only_bind {A B} (m : M A) (k : A → M B) :
  document_only m → (∀ a, document_only (k a)) → document_only (bind m k).
Proof.
  intros Hm Hk w w' Hd He. unfold bind.
  specialize (Hm w w' Hd He).
  destruct (m w) as [a v|e v]; destruct Hm as [-> ->]; [|done].
  apply Hk; done.
Qed.

Lemma document_only_read_only {A} (m : M A) : document_only m → read_only m.
Proof.
  intros H w. specialize (H w w eq_refl eq_refl).
  destruct (m w); simpl; tauto.
Qed.

(** The outcome carries over to any state with the same document. *)
Lemma document_only_Ok {A} (m : M A) (w w' : World) (a : A) :
  document_only m → document w = document w' →
  extend_supported w = extend_supported w' →
  m w = Ok a w → m w' = Ok a w'.
Proof.
  intros H Hd He Hw. specialize (H w w' Hd He). rewrite Hw in H. tauto.
Qed.

Create HintDb document_only discriminated.
#[local] Hint Resolve document_only_ret document_only_throw
  document_only_gets_document document_only_gets_extend : document_only.

(** Closes a goal [document_only m] for a program built from document
    reads. *)
Ltac solve_document_only :=
  repeat first
    [ progress auto with document_only
    | apply document_only_bind; [|intros ?]
    | match goal with
      | |- document_only (match ?x with _ => _ end) => destruct x
      | |- document_only (if ?b then _ else _) => destruct b
      end ].

Lemma document_only_firstChild (n : Node) : document_only (firstChild n).
Proof. unfold firstChild. solve_document_only. Qed.

Lemma document_only_lastChild (n : Node) : document_only (lastChild n).
Proof. unfold lastChild. solve_document_only. Qed.

Lemma document_only_check_bp (n : option Node) (o : nat) :
  document_only (check_bp n o).
Proof. unfold check_bp. solve_document_only. Qed.

#[local] Hint Resolve document_only_firstChild document_only_lastChild
  document_only_check_bp : document_only.

Lemma document_only_setStart (r : DomRange) (n : option Node) (o : nat) :
  document_only (setStart r n o).
Proof. unfold setStart. solve_document_only. Qed.

Lemma document_only_setEnd (r : DomRange) (n : option Node) (o : nat) :
  document_only (setEnd r n o).
Proof. unfold setEnd. solve_document_only. Qed.

Lemma document_only_findNodeForPosition (this : Cursor.t)
    (p : option Position) :
  document_only (Cursor._findNodeForPosition this p).
Proof. unfold Cursor._findNodeForPosition. solve_document_only. Qed.

Lemma document_only_fromNode (rt : RenderTree) (n : Node) (o : nat) :
  document_only (Position_fromNode rt n o).
Proof. unfold Position_fromNode. solve_document_only. Qed.

#[local] Hint Resolve document_only_setStart document_only_setEnd
  document_only_findNodeForPosition document_only_fromNode : document_only.

(** ** Which operations touch the native selection *)

Lemma read_only_of_document_only {A} (m : M A) :
  document_only m → read_only m.
Proof. apply document_only_read_only. Qed.

Lemma read_only_selection (this : Cursor.t) :
  read_only (Cursor.selection this).
Proof. unfold Cursor.selection, getSelection. solve_read_only. Qed.

Lemma read_only_getRangeAt0 (s : Selection) : read_only (getRangeAt0 s).
Proof. unfold getRangeAt0. solve_read_only. Qed.

#[local] Hint Resolve read_only_selection read_only_getRangeAt0 : read_only.

Lemma read_only_selectionRange (this : Cursor.t) :
  read_only (Cursor._selectionRange this).
Proof. unfold Cursor._selectionRange. solve_read_only. Qed.

#[local] Hint Resolve read_only_selectionRange : read_only.

Lemma read_only_hasSelection (this : Cursor.t) :
  read_only (Cursor._hasSelection this).
Proof. unfold Cursor._hasSelection. solve_read_only. Qed.

Lemma read_only_hasCollapsedSelection (this : Cursor.t) :
  read_only (Cursor._hasCollapsedSelection this).
Proof. unfold Cursor._hasCollapsedSelection. solve_read_only. Qed.

#[local] Hint Resolve read_only_hasSelection read_only_hasCollapsedSelection
  : read_only.

Lemma read_only_hasCursor (this : Cursor.t) :
  read_only (Cursor.hasCursor this).
Proof. unfold Cursor.hasCursor. solve_read_only. Qed.

Lemma read_only_firstChild (n : Node) : read_only (firstChild n).
Proof. apply read_only_of_document_only, document_only_firstChild. Qed.

Lemma read_only_lastChild (n : Node) : read_only (lastChild n).
Proof. apply read_only_of_document_only, document_only_lastChild. Qed.

Lemma read_only_fromNode (rt : RenderTree) (n : Node) (o : nat) :
  read_only (Position_fromNode rt n o).
Proof. apply read_only_of_document_only, document_only_fromNode. Qed.

Lemma read_only_comparePosition (s : Selection) :
  read_only (comparePosition s).
Proof. unfold comparePosition. solve_read_only. Qed.

#[local] Hint Resolve read_only_hasCursor read_only_firstChild
  read_only_lastChild read_only_fromNode read_only_comparePosition
  : read_only.

Lemma read_only_isAddressable (this : Cursor.t) (e : Node) :
  read_only (Cursor.isAddressable this e).
Proof. unfold Cursor.isAddressable. solve_read_only. Qed.

Lemma read_only_offsets (this : Cursor.t) : read_only (Cursor.offsets this).
Proof. unfold Cursor.offsets. solve_read_only. Qed.

#[local] Hint Resolve read_only_offsets : read_only.

Lemma read_only_activeSections (this : Cursor.t) :
  read_only (Cursor.activeSections this).
Proof. unfold Cursor.activeSections. solve_read_only. Qed.

Lemma read_only_selectedText (this : Cursor.t) :
  read_only (Cursor.selectedText this).
Proof.
  unfold Cursor.selectedText, selection_toString, getSelection.
  solve_read_only.
Qed.

Lemma moveToNode_discards_selection (this : Cursor.t)
    (n : option Node) (o : nat) (en : option Node) (eo : nat)
    (d : option DIRECTION) (w : World) (s : Selection) :
  Cursor._moveToNode this n o en eo d (set_selection s w)
  = Cursor._moveToNode this n o en eo d w.
Proof. reflexivity. Qed.

Lemma selection_only_read_only {A} (m : M A) :
  read_only m → selection_only m.
Proof. intros H w. by rewrite H. Qed.

Lemma selection_only_modify (f : Selection → Selection) :
  selection_only (modify_selection f).
Proof. by intros w. Qed.

Lemma selection_only_bind {A B} (m : M A) (k : A → M B) :
  selection_only m → (∀ a, selection_only (k a)) → selection_only (bind m k).
Proof.
  intros Hm Hk w. unfold bind. specialize (Hm w).
  destruct (m w) as [a v|e v]; simpl in *; [|done].
  destruct (Hk a v) as [-> ->]. done.
Qed.

Lemma selection_only_addRange (r : DomRange) : selection_only (addRange r).
Proof. apply selection_only_modify. Qed.

Lemma selection_only_extend (n : option Node) (o : nat) :
  selection_only (extend n o).
Proof.
  unfold extend.
  apply selection_only_bind; [apply selection_only_read_only,
    read_only_of_document_only, document_only_check_bp|intros bp].
  apply selection_only_bind; [apply selection_only_read_only,
    read_only_gets|intros s].
  destruct (sel_anchor s);
    [apply selection_only_modify|apply selection_only_read_only,
                                   read_only_throw].
Qed.

Lemma selection_only_moveToNode (this : Cursor.t)
    (n : option Node) (o : nat) (en : option Node) (eo : nat)
    (d : option DIRECTION) :
  selection_only (Cursor._moveToNode this n o en eo d).
Proof.
  unfold Cursor._moveToNode.
  apply selection_only_bind; [apply selection_only_modify|intros _].
  destruct (decide (default FORWARD d = BACKWARD)).
  all: apply selection_only_bind;
    [apply selection_only_read_only, read_only_ret|intros r0].
  all: apply selection_only_bind;
    [apply selection_only_read_only, read_only_of_document_only,
       document_only_setStart|intros r1].
  all: apply selection_only_bind;
    [apply selection_only_read_only, read_only_gets|intros ext].
  all: destruct (bool_decide _ && ext).
  all: apply selection_only_bind;
    first [ apply selection_only_addRange
          | apply selection_only_read_only, read_only_of_document_only,
              document_only_setEnd
          | intros ? ].
  all: first [apply selection_only_extend | apply selection_only_addRange].
Qed.

Lemma selection_only_selectRange (this : Cursor.t) (r : Range) :
  selection_only (Cursor.selectRange this r).
Proof.
  unfold Cursor.selectRange.
  apply selection_only_bind; [apply selection_only_read_only,
    read_only_of_document_only, document_only_findNodeForPosition|].
  intros [hn ho].
  apply selection_only_bind; [apply selection_only_read_only,
    read_only_of_document_only, document_only_findNodeForPosition|].
  intros [tn to_]. apply selection_only_moveToNode.
Qed.

Lemma installs_selection_selectRange (this : Cursor.t) (r : Range) :
  installs_selection (Cursor.selectRange this r).
Proof.
  intros w w' Hrun. split.
  - intros s. revert Hrun. unfold Cursor.selectRange, bind.
    pose proof (document_only_findNodeForPosition this (head r)
                  w (set_selection s w) eq_refl eq_refl) as Hh.
    destruct (Cursor._findNodeForPosition this (head r) w)
      as [[hn ho] v|e v]; destruct Hh as [-> ->]; [|done].
    pose proof (document_only_findNodeForPosition this (tail r)
                  w (set_selection s w) eq_refl eq_refl) as Ht.
    destruct (Cursor._findNodeForPosition this (tail r) w)
      as [[tn to_] v|e v]; destruct Ht as [-> ->]; [|done].
    by rewrite moveToNode_discards_selection.
  - pose proof (selection_only_selectRange this r w) as H.
    by rewrite Hrun in H.
Qed.

Lemma installs_selection_clearSelection (this : Cursor.t) :
  installs_selection (Cursor.clearSelection this).
Proof.
  intros w w' Hrun. injection Hrun as <-. done.
Qed.

Lemma installs_selection_selectSections (this : Cursor.t)
    (l : list PostSection.t) :
  installs_selection (Cursor.selectSections this l).
Proof.
  unfold Cursor.selectSections.
  destruct (l !! (length l - 1)); [|by intros w w' ?].
  destruct (l !! 0); [|by intros w w' ?].
  apply installs_selection_selectRange.
Qed.

(** C9.  The queries [hasCursor], [hasSelection], [isAddressable],
    [offsets], [activeSections] and [selectedText] leave the browser state,
    and so the native selection, exactly as they found it, whether they
    return or throw.  The commands [clearSelection], [selectRange],
    [moveToPosition], [moveToSection] and [selectSections] change nothing
    but the selection, and the selection they leave does not depend on the
    one they found: they go through [clearSelection] first (the selection
    holds at most one range). *)
Theorem selection_frame (this : Cursor.t) :
  (read_only (Cursor.hasCursor this) ∧
   read_only (Cursor.hasSelection this) ∧
   (∀ e, read_only (Cursor.isAddressable this e)) ∧
   read_only (Cursor.offsets this) ∧
   read_only (Cursor.activeSections this) ∧
   read_only (Cursor.selectedText this)) ∧
  (installs_selection (Cursor.clearSelection this) ∧
   (∀ r, installs_selection (Cursor.selectRange this r)) ∧
   (∀ p, installs_selection (Cursor.moveToPosition this p)) ∧
   (∀ s o, installs_selection (Cursor.moveToSection this s o)) ∧
   (∀ l, installs_selection (Cursor.selectSections this l))).
Proof.
  split.
  - split; [apply read_only_hasCursor|].
    split; [apply read_only_hasSelection|].
    split; [apply read_only_isAddressable|].
    split; [apply read_only_offsets|].
    split; [apply read_only_activeSections|apply read_only_selectedText].
  - split; [apply installs_selection_clearSelection|].
    split; [apply installs_selection_selectRange|].
    split; [intros p; apply installs_selection_selectRange|].
    split; [intros s o; apply installs_selection_selectRange|].
    apply installs_selection_selectSections.
Qed.

(** The commands do change the selection: clearing removes a selection that
    was there. *)
Example clearSelection_changes_selection :
  let w := set_selection Scenario.outside_selection Scenario.world in
  Cursor.clearSelection Scenario.cursor w = Ok () Scenario.world ∧
  w ≠ Scenario.world.
Proof. split; [reflexivity|]. simpl. intros H. discriminate H. Qed.

(** ** Installing a range *)

Lemma check_bp_run (n : Node) (o : nat) (w : World) :
  valid_bp (document w) (n, o) = true →
  check_bp (Some n) o w = Ok (n, o) w.
Proof.
  unfold valid_bp, check_bp, gets, bind; simpl.
  destruct (node_length (document w) n); [|done].
  intros H. by rewrite H.
Qed.

Lemma setStart_run (r : DomRange) (n : Node) (o : nat) (w : World) :
  valid_bp (document w) (n, o) = true →
  setStart r (Some n) o w
  = Ok (if bp_after (n, o) (range_end r) then mkDomRange n o n o
        else mkDomRange n o (endContainer r) (endOffset r)) w.
Proof.
  intros H. unfold setStart. by rewrite (bind_Ok _ _ _ _ _ (check_bp_run _ _ _ H)).
Qed.

Lemma setEnd_run (r : DomRange) (n : Node) (o : nat) (w : World) :
  valid_bp (document w) (n, o) = true →
  setEnd r (Some n) o w
  = Ok (if bp_before (n, o) (range_start r) then mkDomRange n o n o
        else mkDomRange (startContainer r) (startOffset r) n o) w.
Proof.
  intros H. unfold setEnd. by rewrite (bind_Ok _ _ _ _ _ (check_bp_run _ _ _ H)).
Qed.

(** On a fresh range, [setStart] collapses the range at the given point. *)
Lemma setStart_fresh (n : Node) (o : nat) (w : World) :
  valid_bp (document w) (n, o) = true →
  setStart (mkDomRange [] 0 [] 0) (Some n) o w = Ok (mkDomRange n o n o) w.
Proof.
  intros H. rewrite (setStart_run _ _ _ _ H).
  change (range_end (mkDomRange [] 0 [] 0)) with (([], 0) : BoundaryPoint).
  cbn [endContainer endOffset].
  destruct (bp_after (n, o) ([], 0)) eqn:Hafter; [reflexivity|].
  apply bp_after_false_iff in Hafter.
  pose proof (bp_document_start_least (n, o)) as Hleast.
  destruct (bp_compare (n, o) ([], 0)) eqn:Hc; try done.
  apply bp_compare_eq in Hc. injection Hc as -> ->. reflexivity.
Qed.

(** Runs the next step of a monadic program with a known outcome. *)
Ltac step H := rewrite (bind_Ok _ _ _ _ _ H).

Lemma clearSelection_run (this : Cursor.t) (w : World) :
  Cursor.clearSelection this w = Ok () (set_selection empty_selection w).
Proof. reflexivity. Qed.

(** The forward path of [_moveToNode]: one span from the first endpoint to
    the second. *)
Lemma moveToNode_forward (this : Cursor.t) (w : World)
    (hn : Node) (ho : nat) (tn : Node) (to_ : nat) (d : option DIRECTION) :
  default FORWARD d = FORWARD →
  valid_bp (document w) (hn, ho) = true →
  valid_bp (document w) (tn, to_) = true →
  bp_before (tn, to_) (hn, ho) = false →
  Cursor._moveToNode this (Some hn) ho (Some tn) to_ d w
  = Ok () (set_selection
             {| sel_range := Some (mkDomRange hn ho tn to_);
                sel_direction := Forwards |} w).
Proof.
  intros Hd Hh Ht Hord. unfold Cursor._moveToNode. rewrite Hd.
  step (clearSelection_run this w).
  destruct (decide (FORWARD = BACKWARD)) as [?|_]; [done|].
  unfold createRange. rewrite bind_ret.
  step (setStart_fresh hn ho (set_selection empty_selection w) Hh).
  rewrite bind_gets.
  cbn [bool_decide andb].
  replace (bool_decide (FORWARD = BACKWARD)) with false
    by (symmetry; by apply bool_decide_eq_false).
  cbn [andb].
  step (setEnd_run (mkDomRange hn ho hn ho) tn to_
          (set_selection empty_selection w) Ht).
  change (range_start (mkDomRange hn ho hn ho)) with ((hn, ho) : BoundaryPoint).
  rewrite Hord. reflexivity.
Qed.

(** The backward path on a platform with [selection.extend]: a range
    collapsed at the second endpoint (the tail), extended to the first. *)
Lemma moveToNode_backward_extend (this : Cursor.t) (w : World)
    (hn : Node) (ho : nat) (tn : Node) (to_ : nat) :
  valid_bp (document w) (tn, to_) = true →
  extend_supported w = true →
  Cursor._moveToNode this (Some hn) ho (Some tn) to_ (Some BACKWARD) w
  = bind (Cursor.clearSelection this)
      (λ _, bind (addRange (mkDomRange tn to_ tn to_))
              (λ _, extend (Some hn) ho)) w.
Proof.
  intros Ht Hext. unfold Cursor._moveToNode.
  change (default FORWARD (Some BACKWARD)) with BACKWARD.
  step (clearSelection_run this w).
  rewrite (bind_Ok _ _ _ _ _ (clearSelection_run this w)).
  destruct (decide (BACKWARD = BACKWARD)) as [_|?]; [|done].
  unfold createRange. rewrite bind_ret.
  step (setStart_fresh tn to_ (set_selection empty_selection w) Ht).
  rewrite bind_gets.
  cbn [extend_supported set_selection]. rewrite Hext.
  replace (bool_decide (BACKWARD = BACKWARD)) with true
    by (symmetry; by apply bool_decide_eq_true).
  reflexivity.
Qed.

(** What that installs: anchor at the tail, focus at the head. *)
Lemma collapse_then_extend_run (w : World)
    (hn : Node) (ho : nat) (tn : Node) (to_ : nat) :
  valid_bp (document w) (hn, ho) = true →
  bind (addRange (mkDomRange tn to_ tn to_)) (λ _, extend (Some hn) ho)
    (set_selection empty_selection w)
  = Ok () (set_selection
             (if bp_after (tn, to_) (hn, ho)
              then {| sel_range := Some (mkDomRange hn ho tn to_);
                      sel_direction := Backwards |}
              else {| sel_range := Some (mkDomRange tn to_ hn ho);
                      sel_direction := Forwards |}) w).
Proof.
  intros Hh.
  rewrite (bind_Ok _ _ _
             (set_selection {| sel_range := Some (mkDomRange tn to_ tn to_);
                               sel_direction := Forwards |} w) ())
    by reflexivity.
  unfold extend.
  step (check_bp_run hn ho
          (set_selection {| sel_range := Some (mkDomRange tn to_ tn to_);
                            sel_direction := Forwards |} w) Hh).
  unfold getSelection. rewrite bind_gets.
  reflexivity.
Qed.

(** The path taken for a backward range on a platform without
    [selection.extend]: the endpoints were swapped, so [setEnd] is asked to
    put the end before the start and the range collapses at the head. *)
Lemma moveToNode_backward_without_extend (this : Cursor.t) (w : World)
    (hn : Node) (ho : nat) (tn : Node) (to_ : nat) :
  valid_bp (document w) (hn, ho) = true →
  valid_bp (document w) (tn, to_) = true →
  bp_before (hn, ho) (tn, to_) = true →
  extend_supported w = false →
  Cursor._moveToNode this (Some hn) ho (Some tn) to_ (Some BACKWARD) w
  = Ok () (set_selection
             {| sel_range := Some (mkDomRange hn ho hn ho);
                sel_direction := Forwards |} w).
Proof.
  intros Hh Ht Hord Hext. unfold Cursor._moveToNode.
  change (default FORWARD (Some BACKWARD)) with BACKWARD.
  step (clearSelection_run this w).
  destruct (decide (BACKWARD = BACKWARD)) as [_|?]; [|done].
  unfold createRange. rewrite bind_ret.
  step (setStart_fresh tn to_ (set_selection empty_selection w) Ht).
  rewrite bind_gets.
  cbn [extend_supported set_selection]. rewrite Hext, andb_false_r.
  step (setEnd_run (mkDomRange tn to_ tn to_) hn ho
          (set_selection empty_selection w) Hh).
  change (range_start (mkDomRange tn to_ tn to_))
    with ((tn, to_) : BoundaryPoint).
  rewrite Hord. reflexivity.
Qed.

(** ** Reading the selection back *)

(** The worked example of the specification: [moveToSection(P2, 1)] and then
    [offsets] gives the collapsed range at offset 1 of the marker "CD". *)
Example moveToSection_then_offsets :
  let w := set_selection
             {| sel_range := Some (mkDomRange [0; 2; 0] 1 [0; 2; 0] 1);
                sel_direction := Forwards |} Scenario.world in
  let p := mkPosition Scenario.P2 1 (Some Scenario.mCD) 1 in
  Cursor.moveToSection Scenario.cursor Scenario.P2 (Some 1) Scenario.world
    = Ok () w ∧
  ∃ r, Cursor.offsets Scenario.cursor w = Ok r w ∧
       head r = Some p ∧ tail r = Some p.
Proof. split; [reflexivity|]. eexists. repeat split; reflexivity. Qed.

(** Positions of text sections survive the trip to the native endpoint and
    back: the marker that [new Position] resolves is found again by
    [Position.fromNode] at the same section offset. *)
Lemma markerPositionAtOffset_elem_of (ms : list Marker.t) (k : nat)
    (m : Marker.t) (o : nat) :
  markerPositionAtOffset ms k = (Some m, o) → m ∈ ms.
Proof.
  revert k; induction ms as [|m' rest IH]; intros k; simpl; [done|].
  destruct (bool_decide (k ≤ Marker.length m')).
  - intros [= -> _]. apply list_elem_of_here.
  - intros H. apply list_elem_of_further. by eapply IH.
Qed.

Lemma markerPositionAtOffset_offsetOfMarker (ms : list Marker.t) (k : nat)
    (m : Marker.t) (o : nat) :
  NoDup ms →
  markerPositionAtOffset ms k = (Some m, o) →
  offsetOfMarker ms m + o = k.
Proof.
  intros Hnd; revert k; induction Hnd as [|m' rest Hnotin Hnd IH];
    intros k; simpl; [done|].
  destruct (bool_decide (k ≤ Marker.length m')) eqn:Hle.
  - intros [= -> ->]. by destruct (decide (m = m)).
  - intros H. apply bool_decide_eq_false in Hle.
    destruct (decide (m' = m)) as [->|_].
    + by apply markerPositionAtOffset_elem_of in H.
    + specialize (IH _ H). lia.
Qed.

Lemma text_position_round_trip (this : Cursor.t) (w : World)
    (s : PostSection.t) (k : nat) (m : Marker.t) :
  PostSection.isCardSection s = false →
  PostSection.isBlank s = false →
  NoDup (PostSection.markers s) →
  marker (Position_new s k) = Some m →
  findRenderNodeFromElement (Cursor.renderTree this)
    (element (Marker.renderNode m))
  = Some (mkRenderNode (MarkerNode m s) (element (Marker.renderNode m))) →
  ∃ n o,
    Cursor._findNodeForPosition this (Some (Position_new s k)) w
      = Ok (Some n, o) w ∧
    Position_fromNode (Cursor.renderTree this) n o w
      = Ok (Some (Position_new s k)) w.
Proof.
  intros Hcard Hblank Hnd Hm Hrt.
  unfold Position_new in *. rewrite Hcard, Hblank in *. cbn [orb] in *.
  destruct (markerPositionAtOffset (PostSection.markers s) k) as [mo o]
    eqn:Hres.
  cbn [fst snd marker] in *. subst mo.
  exists (element (Marker.renderNode m)), o. split.
  - unfold Cursor._findNodeForPosition. cbn [section marker offsetInMarker].
    by rewrite Hcard, Hblank.
  - unfold Position_fromNode. rewrite Hrt. cbn [postNode].
    by rewrite (markerPositionAtOffset_offsetOfMarker _ _ _ _ Hnd Hres).
Qed.

Lemma offsets_of_selection (this : Cursor.t) (w : World)
    (a f : BoundaryPoint) (hp tp : option Position) :
  sel_anchor (native_selection w) = Some a →
  sel_focus (native_selection w) = Some f →
  containsNode (Editor.element (Cursor.editor this)) (Some a.1) = true →
  let h := if bp_after a f then f else a in
  let t := if bp_after a f then a else f in
  Position_fromNode (Cursor.renderTree this) h.1 h.2 w = Ok hp w →
  Position_fromNode (Cursor.renderTree this) t.1 t.2 w = Ok tp w →
  Cursor.offsets this w
  = Ok (mkRange hp tp (Some (if bp_after a f then BACKWARD else FORWARD))) w.
Proof.
  intros Ha Hf Hin h t Hh Ht. unfold Cursor.offsets.
  rewrite (bind_Ok _ _ _ _ _ (hasCursor_run this w)).
  unfold anchorNode. rewrite Ha. cbn [fmap option_fmap option_map].
  rewrite Hin. cbn [negb].
  unfold Cursor.selection, getSelection. rewrite bind_gets.
  unfold comparePosition. rewrite Ha, Hf. rewrite bind_ret.
  subst h t. destruct (bp_after a f); cbn [Compared.headNode
    Compared.headOffset Compared.tailNode Compared.tailOffset
    Compared.direction].
  all: step Hh; step Ht; reflexivity.
Qed.

(** The round trip for two endpoints from which [Position.fromNode] recovers
    the positions. *)
Lemma round_trip_of_rendered_endpoint (this : Cursor.t) (w : World)
    (h t : Position) (d : option DIRECTION) (hb tb : BoundaryPoint) :
  rendered_endpoint this w h hb →
  rendered_endpoint this w t tb →
  bp_after hb tb = false →
  (d = Some BACKWARD → extend_supported w = true) →
  let r := mkRange (Some h) (Some t) d in
  ∃ w' d',
    Cursor.selectRange this r w = Ok () w' ∧
    Cursor.offsets this w' = Ok (mkRange (Some h) (Some t) (Some d')) w' ∧
    (hb ≠ tb → d' = default FORWARD d) ∧
    (d = Some BACKWARD →
     Cursor.selectRange this r w
     = bind (Cursor.clearSelection this)
         (λ _, bind (addRange (mkDomRange tb.1 tb.2 tb.1 tb.2))
                 (λ _, extend (Some hb.1) hb.2)) w).
Proof.
  destruct hb as [hn ho], tb as [tn to_].
  intros (Hfh & Hvh & Hch & Hrh) (Hft & Hvt & Hct & Hrt) Hord Hdeg r.
  cbn [fst snd] in *.
  assert (Hsel : Cursor.selectRange this r w
                 = Cursor._moveToNode this (Some hn) ho (Some tn) to_ d w).
  { unfold Cursor.selectRange. cbn [head tail direction r].
    step Hfh. step Hft. reflexivity. }
  assert (Hfrom : ∀ s n o p,
    Position_fromNode (Cursor.renderTree this) n o w = Ok p w →
    Position_fromNode (Cursor.renderTree this) n o (set_selection s w)
    = Ok p (set_selection s w)).
  { intros s n o p. apply document_only_Ok;
      [apply document_only_fromNode|reflexivity|reflexivity]. }
  destruct (decide (d = Some BACKWARD)) as [->|Hfwd].
  - (* backward, with extend *)
    specialize (Hdeg eq_refl).
    pose proof (moveToNode_backward_extend this w hn ho tn to_ Hvt Hdeg)
      as Hmove.
    assert (Hrun := Hmove).
    rewrite (bind_Ok _ _ _ _ _ (clearSelection_run this w)) in Hrun.
    rewrite (collapse_then_extend_run w hn ho tn to_ Hvh) in Hrun.
    destruct (bp_after (tn, to_) (hn, ho)) eqn:Hafter.
    + eexists _, BACKWARD. split; [by rewrite Hsel, Hrun|].
      split; [|split; [done|by intros _; rewrite Hsel]].
      pose proof (offsets_of_selection this
        (set_selection {| sel_range := Some (mkDomRange hn ho tn to_);
                          sel_direction := Backwards |} w)
        (tn, to_) (hn, ho) (Some h) (Some t) eq_refl eq_refl Hct) as Hoff.
      rewrite Hafter in Hoff. apply Hoff; by apply Hfrom.
    + assert ((hn, ho) = (tn, to_)) as Heq.
      { apply bp_after_false_iff in Hord, Hafter.
        rewrite (bp_compare_antisym (hn, ho) (tn, to_)) in Hafter.
        destruct (bp_compare (hn, ho) (tn, to_)) eqn:Hc; try done.
        by apply bp_compare_eq. }
      injection Heq as <- <-.
      assert (h = t) as <- by congruence.
      eexists _, FORWARD. split; [by rewrite Hsel, Hrun|].
      split; [|split; [done|by intros _; rewrite Hsel]].
      pose proof (offsets_of_selection this
        (set_selection {| sel_range := Some (mkDomRange hn ho hn ho);
                          sel_direction := Forwards |} w)
        (hn, ho) (hn, ho) (Some h) (Some h) eq_refl eq_refl Hch) as Hoff.
      rewrite Hafter in Hoff. apply Hoff; by apply Hfrom.
  - (* forward, or no direction given *)
    assert (default FORWARD d = FORWARD) as Hd.
    { destruct d as [[]|]; done. }
    assert (bp_before (tn, to_) (hn, ho) = false) as Hord'
      by (by rewrite bp_before_flip).
    pose proof (moveToNode_forward this w hn ho tn to_ d Hd Hvh Hvt Hord')
      as Hrun.
    eexists _, FORWARD. split; [by rewrite Hsel, Hrun|].
    split; [|split; [by rewrite Hd|done]].
    pose proof (offsets_of_selection this
      (set_selection {| sel_range := Some (mkDomRange hn ho tn to_);
                        sel_direction := Forwards |} w)
      (hn, ho) (tn, to_) (Some h) (Some t) eq_refl eq_refl Hch) as Hoff.
    rewrite Hord in Hoff. apply Hoff; by apply Hfrom.
Qed.

(** C1, as amended.  Let the head and the tail of a range be rendered
    positions of the editor, the head's native endpoint not after the
    tail's.  Unless the range is backward on a platform without
    [selection.extend], selecting it and then reading [offsets] gives back a
    range with the same head and tail; when the two native endpoints lie in
    different nodes, the direction read back is the range's own (forward
    when it has none); and a backward range is installed by adding a range
    collapsed at the tail endpoint and extending it to the head endpoint. *)
Theorem selectRange_then_offsets (this : Cursor.t) (w : World)
    (h t : Position) (d : option DIRECTION) (hb tb : BoundaryPoint) :
  rendered_position this w h hb →
  rendered_position this w t tb →
  bp_after hb tb = false →
  (d = Some BACKWARD → extend_supported w = true) →
  let r := mkRange (Some h) (Some t) d in
  ∃ w' r',
    Cursor.selectRange this r w = Ok () w' ∧
    Cursor.offsets this w' = Ok r' w' ∧
    head r' = Some h ∧ tail r' = Some t ∧
    (hb.1 ≠ tb.1 → direction r' = Some (default FORWARD d)) ∧
    (d = Some BACKWARD →
     Cursor.selectRange this r w
     = bind (Cursor.clearSelection this)
         (λ _, bind (addRange (mkDomRange tb.1 tb.2 tb.1 tb.2))
                 (λ _, extend (Some hb.1) hb.2)) w).
Proof.
  intros Hh Ht Hord Hdeg r.
  (* a rendered position resolves to its endpoint, and [Position.fromNode]
     finds the position again at that endpoint *)
  assert (Hend : ∀ p bp, rendered_position this w p bp →
                         rendered_endpoint this w p bp).
  { intros p bp.
    destruct p as [s off mk oim].
    unfold rendered_position, rendered_endpoint.
    cbn [section offset marker offsetInMarker].
    intros (Hv & Hc & Hkind).
    assert (Cursor._findNodeForPosition this
              (Some (mkPosition s off mk oim)) w
              = Ok (Some bp.1, bp.2) w ∧
            Position_fromNode (Cursor.renderTree this) bp.1 bp.2 w
              = Ok (Some (mkPosition s off mk oim)) w) as [Hfind Hfrom];
      [|by repeat split].
    destruct Hkind as [Htext|[Hcard|Hblank]].
    - destruct Htext as (Hcard & Hblank & m & rn & -> & -> & -> & Hrn & Hpn).
      cbn [fst snd] in *. split.
      + unfold Cursor._findNodeForPosition.
        cbn [section offset marker offsetInMarker]. by rewrite Hcard, Hblank.
      + unfold Position_fromNode. by rewrite Hrn, Hpn.
    - destruct Hcard as (Hcard & -> & -> & first & last & rn & Hf & Hl & Hoff
                         & Hrn & Hpn & Hel).
      destruct Hoff as [[-> ->]|(-> & Hlen & Hne & ->)]; cbn [fst snd] in *.
      + split.
        * unfold Cursor._findNodeForPosition, firstChild, gets, bind, ret.
          cbn [section offset]. rewrite Hcard.
          destruct (decide (0 = 0)) as [_|?]; [|done]. by rewrite Hf.
        * unfold Position_fromNode, firstChild, lastChild, gets, bind, ret.
          rewrite Hrn, Hpn, Hcard, Hel, Hf.
          by destruct (decide (Some first = Some first)).
      + split.
        * unfold Cursor._findNodeForPosition, lastChild, gets, bind, ret.
          cbn [section offset]. rewrite Hcard.
          destruct (decide (PostSection.length s = 0)) as [?|_]; [done|].
          by rewrite Hl.
        * unfold Position_fromNode, firstChild, lastChild, gets, bind, ret.
          rewrite Hrn, Hpn, Hcard, Hel, Hf, Hl.
          destruct (decide (Some last = Some first)) as [[= ?]|_]; [done|].
          by destruct (decide (Some last = Some last)).
    - destruct Hblank as (Hcard & Hblank & -> & -> & -> & -> & rn & Hrn & Hpn).
      cbn [fst snd] in *. split.
      + unfold Cursor._findNodeForPosition.
        cbn [section offset marker offsetInMarker]. by rewrite Hcard, Hblank.
      + unfold Position_fromNode, Position_new.
        by rewrite Hrn, Hpn, Hcard, Hblank. }
  destruct (round_trip_of_rendered_endpoint this w h t d hb tb
              (Hend _ _ Hh) (Hend _ _ Ht) Hord Hdeg)
    as (w' & d' & Hsel & Hoff & Hdir & Hinst).
  exists w', (mkRange (Some h) (Some t) (Some d')).
  split; [exact Hsel|]. split; [exact Hoff|].
  split; [reflexivity|]. split; [reflexivity|]. split; [|exact Hinst].
  intros Hnodes. cbn [direction]. f_equal. apply Hdir.
  intros Heq. apply Hnodes. by rewrite Heq.
Qed.

(** The positions of the worked example are rendered positions. *)
Lemma rendered_start_of_P1 (w : World) :
  document w = Scenario.doc →
  rendered_position Scenario.cursor w Scenario.start_of_P1 ([0; 0; 0], 0).
Proof.
  intros Hdoc. unfold rendered_position. rewrite Hdoc.
  split; [reflexivity|]. split; [reflexivity|]. left.
  split; [reflexivity|]. split; [reflexivity|].
  eexists Scenario.mAB, _. repeat split; reflexivity.
Qed.

Lemma rendered_end_of_P2 (w : World) :
  document w = Scenario.doc →
  rendered_position Scenario.cursor w Scenario.end_of_P2 ([0; 2; 0], 2).
Proof.
  intros Hdoc. unfold rendered_position. rewrite Hdoc.
  split; [reflexivity|]. split; [reflexivity|]. left.
  split; [reflexivity|]. split; [reflexivity|].
  eexists Scenario.mCD, _. repeat split; reflexivity.
Qed.

Lemma rendered_middle_of_P2 (w : World) :
  document w = Scenario.doc →
  rendered_position Scenario.cursor w Scenario.middle_of_P2 ([0; 2; 0], 1).
Proof.
  intros Hdoc. unfold rendered_position. rewrite Hdoc.
  split; [reflexivity|]. split; [reflexivity|]. left.
  split; [reflexivity|]. split; [reflexivity|].
  eexists Scenario.mCD, _. repeat split; reflexivity.
Qed.

(** The two boundaries of the card of the worked example are rendered
    positions as well. *)
Example rendered_card_boundaries :
  rendered_position Scenario.cursor Scenario.world
    (mkPosition Scenario.Card 0 None 0) ([0; 1; 0], 0) ∧
  rendered_position Scenario.cursor Scenario.world
    (mkPosition Scenario.Card 1 None 0) ([0; 1; 2], 0).
Proof.
  split.
  - split; [reflexivity|]. split; [reflexivity|]. right; left.
    split; [reflexivity|]. split; [reflexivity|]. split; [reflexivity|].
    eexists [0; 1; 0], [0; 1; 2], _.
    split; [reflexivity|]. split; [reflexivity|].
    split; [left; by split|]. repeat split; reflexivity.
  - split; [reflexivity|]. split; [reflexivity|]. right; left.
    split; [reflexivity|]. split; [reflexivity|]. split; [reflexivity|].
    eexists [0; 1; 0], [0; 1; 2], _.
    split; [reflexivity|]. split; [reflexivity|].
    split; [right; by repeat split|]. repeat split; reflexivity.
Qed.

Lemma selectRange_then_offsets_witness :
  rendered_position Scenario.cursor Scenario.world
    Scenario.start_of_P1 ([0; 0; 0], 0) ∧
  rendered_position Scenario.cursor Scenario.world
    Scenario.end_of_P2 ([0; 2; 0], 2) ∧
  ∃ w' r',
    Cursor.selectRange Scenario.cursor Scenario.backward_drag Scenario.world
      = Ok () w' ∧
    Cursor.offsets Scenario.cursor w' = Ok r' w' ∧
    head r' = Some Scenario.start_of_P1 ∧
    tail r' = Some Scenario.end_of_P2 ∧
    ([0; 0; 0] ≠ [0; 2; 0] → direction r' = Some BACKWARD) ∧
    (Some BACKWARD = Some BACKWARD →
     Cursor.selectRange Scenario.cursor Scenario.backward_drag Scenario.world
     = bind (Cursor.clearSelection Scenario.cursor)
         (λ _, bind (addRange (mkDomRange [0; 2; 0] 2 [0; 2; 0] 2))
                 (λ _, extend (Some [0; 0; 0]) 0)) Scenario.world).
Proof.
  split; [exact (rendered_start_of_P1 Scenario.world eq_refl)|].
  split; [exact (rendered_end_of_P2 Scenario.world eq_refl)|].
  exact (selectRange_then_offsets Scenario.cursor Scenario.world
           Scenario.start_of_P1 Scenario.end_of_P2 (Some BACKWARD)
           ([0; 0; 0], 0) ([0; 2; 0], 2)
           (rendered_start_of_P1 Scenario.world eq_refl)
           (rendered_end_of_P2 Scenario.world eq_refl)
           eq_refl (λ _, eq_refl)).
Defined.

(** The backward drag of the specification on a platform with
    [selection.extend]: the native selection keeps its anchor at the tail,
    and [offsets] reads the range back, direction included. *)
Example backward_drag_round_trip :
  let w' := set_selection
              {| sel_range := Some (mkDomRange [0; 0; 0] 0 [0; 2; 0] 2);
                 sel_direction := Backwards |} Scenario.world in
  Cursor.selectRange Scenario.cursor Scenario.backward_drag Scenario.world
    = Ok () w' ∧
  Cursor.offsets Scenario.cursor w' = Ok Scenario.backward_drag w'.
Proof. split; reflexivity. Qed.

(** A caret leaves the same native selection whether it is marked backward
    or forward, so nothing that reads the selection can tell the two
    apart. *)
Example caret_direction_not_recorded :
  Cursor.selectRange Scenario.cursor Scenario.backward_caret Scenario.world
  = Cursor.selectRange Scenario.cursor Scenario.forward_caret Scenario.world.
Proof. reflexivity. Qed.

(** C1, as stated, fails.  First, a collapsed range marked backward is not
    read back as backward even though the platform has [selection.extend]:
    a collapsed native selection has no direction.  Second, a backward range
    on a platform without [selection.extend] is read back with its tail
    lost. *)
Lemma round_trip_as_stated_fails :
  (rendered_position Scenario.cursor Scenario.world
     Scenario.middle_of_P2 ([0; 2; 0], 1) ∧
   ¬ round_trip_as_stated Scenario.cursor Scenario.world
       Scenario.backward_caret) ∧
  (rendered_position Scenario.cursor Scenario.world_without_extend
     Scenario.start_of_P1 ([0; 0; 0], 0) ∧
   rendered_position Scenario.cursor Scenario.world_without_extend
     Scenario.end_of_P2 ([0; 2; 0], 2) ∧
   ¬ round_trip_as_stated Scenario.cursor Scenario.world_without_extend
       Scenario.backward_drag).
Proof.
  split; [split; [by apply rendered_middle_of_P2|]
         |split; [by apply rendered_start_of_P1|
                  split; [by apply rendered_end_of_P2|]]].
  - intros (w' & r' & Hs & Ho & _ & _ & Hd).
    vm_compute in Hs. injection Hs as <-.
    vm_compute in Ho. injection Ho as <-.
    specialize (Hd eq_refl). vm_compute in Hd. discriminate Hd.
  - intros (w' & r' & Hs & Ho & _ & Ht & _).
    vm_compute in Hs. injection Hs as <-.
    vm_compute in Ho. injection Ho as <-.
    vm_compute in Ht. discriminate Ht.
Qed.

(** ** The fallback without [selection.extend] *)

(** For a backward range whose head comes strictly before its tail, on a
    platform without [selection.extend], [selectRange] leaves a selection
    collapsed at the head endpoint. *)
Lemma selectRange_backward_without_extend (this : Cursor.t) (w : World)
    (h t : Position) (hn : Node) (ho : nat) (tn : Node) (to_ : nat) :
  Cursor._findNodeForPosition this (Some h) w = Ok (Some hn, ho) w →
  Cursor._findNodeForPosition this (Some t) w = Ok (Some tn, to_) w →
  valid_bp (document w) (hn, ho) = true →
  valid_bp (document w) (tn, to_) = true →
  bp_before (hn, ho) (tn, to_) = true →
  extend_supported w = false →
  Cursor.selectRange this (mkRange (Some h) (Some t) (Some BACKWARD)) w
  = Ok () (set_selection
             {| sel_range := Some (mkDomRange hn ho hn ho);
                sel_direction := Forwards |} w).
Proof.
  intros Hfh Hft Hvh Hvt Hord Hext. unfold Cursor.selectRange.
  cbn [head tail direction]. step Hfh. step Hft.
  by apply moveToNode_backward_without_extend.
Qed.

(** The same range marked forward does get its span on that platform. *)
Lemma selectRange_forward_without_extend (this : Cursor.t) (w : World)
    (h t : Position) (hn : Node) (ho : nat) (tn : Node) (to_ : nat) :
  Cursor._findNodeForPosition this (Some h) w = Ok (Some hn, ho) w →
  Cursor._findNodeForPosition this (Some t) w = Ok (Some tn, to_) w →
  valid_bp (document w) (hn, ho) = true →
  valid_bp (document w) (tn, to_) = true →
  bp_before (hn, ho) (tn, to_) = true →
  Cursor.selectRange this (mkRange (Some h) (Some t) (Some FORWARD)) w
  = Ok () (set_selection
             {| sel_range := Some (mkDomRange hn ho tn to_);
                sel_direction := Forwards |} w).
Proof.
  intros Hfh Hft Hvh Hvt Hord. unfold Cursor.selectRange.
  cbn [head tail direction]. step Hfh. step Hft.
  apply moveToNode_forward; try done.
  rewrite bp_before_flip. unfold bp_before, bp_after in *.
  by destruct (bp_compare (hn, ho) (tn, to_)).
Qed.

(** C2.  The backward drag from offset 2 of P2 to offset 0 of P1, on a
    platform without [selection.extend]: after [selectRange] the native
    selection is collapsed at the head endpoint (start of "AB"); it does not
    span from there to the tail endpoint (end of "CD"), and [hasSelection]
    reports no selection. *)
Theorem backward_drag_without_extend_collapses :
  let w' := set_selection
              {| sel_range := Some (mkDomRange [0; 0; 0] 0 [0; 0; 0] 0);
                 sel_direction := Forwards |}
              Scenario.world_without_extend in
  Cursor.selectRange Scenario.cursor Scenario.backward_drag
    Scenario.world_without_extend = Ok () w' ∧
  sel_range (native_selection w')
    ≠ Some (mkDomRange [0; 0; 0] 0 [0; 2; 0] 2) ∧
  Cursor.hasSelection Scenario.cursor w' = Ok false w'.
Proof.
  cbn zeta. split; [|split; [intros H; discriminate H|reflexivity]].
  apply (selectRange_backward_without_extend Scenario.cursor
           Scenario.world_without_extend Scenario.start_of_P1
           Scenario.end_of_P2 [0; 0; 0] 0 [0; 2; 0] 2); reflexivity.
Qed.

(** * Further properties of the cursor *)

(** ** What [hasCursor] and [hasSelection] compute *)

(** X1.  [hasCursor()] returns normally, and returns [true] exactly when the
    native selection has a range and its anchor node lies in the editor
    element; the focus node and [range.collapsed] play no part. *)
Theorem hasCursor_iff_anchor_contained (this : Cursor.t) (w : World) :
  ∃ b, Cursor.hasCursor this w = Ok b w ∧
    (b = true ↔
     rangeCount (native_selection w) ≠ 0 ∧
     containsNode (Editor.element (Cursor.editor this))
       (anchorNode (native_selection w)) = true).
Proof.
  eexists. split; [apply hasCursor_run|].
  unfold rangeCount, anchorNode, sel_anchor.
  destruct (sel_range (native_selection w)); simpl.
  - split; [intros H; split; [lia|exact H]|intros [_ H]; exact H].
  - split; [intros H; discriminate H|intros [_ H]; discriminate H].
Qed.

(** X2.  [hasSelection()] returns normally, and returns [true] exactly when
    the native selection has a range that is not collapsed and both its
    anchor node and its focus node lie in the editor element. *)
Theorem hasSelection_iff (this : Cursor.t) (w : World) :
  ∃ b, Cursor.hasSelection this w = Ok b w ∧
    (b = true ↔
     ∃ r, sel_range (native_selection w) = Some r ∧
          collapsed r = false ∧
          containsNode (Editor.element (Cursor.editor this))
            (anchorNode (native_selection w)) = true ∧
          containsNode (Editor.element (Cursor.editor this))
            (focusNode (native_selection w)) = true).
Proof.
  eexists. split; [apply hasSelection_run|].
  destruct (sel_range (native_selection w)) as [r|].
  - rewrite !andb_true_iff, negb_true_iff. split.
    + intros [[Hc Ha] Hf]. exists r. by repeat split.
    + intros (r' & Hr & Hc & Ha & Hf). injection Hr as <-. by repeat split.
  - split; [intros H; discriminate H|].
    intros (r & Hr & _). discriminate Hr.
Qed.

(** X3.  Whenever [hasSelection()] is [true], so is [hasCursor()]. *)
Theorem hasSelection_implies_hasCursor (this : Cursor.t) (w : World) :
  Cursor.hasSelection this w = Ok true w →
  Cursor.hasCursor this w = Ok true w.
Proof.
  unfold Cursor.hasSelection. rewrite hasSelection_run, hasCursor_run.
  destruct (sel_range (native_selection w)); [|done].
  intros [= H]. rewrite !andb_true_iff in H. destruct H as [[_ ->] _]. done.
Qed.

Lemma hasSelection_implies_hasCursor_witness :
  let w := set_selection Scenario.inside_selection Scenario.world in
  Cursor.hasSelection Scenario.cursor w = Ok true w ∧
  Cursor.hasCursor Scenario.cursor w = Ok true w.
Proof.
  split; [reflexivity|].
  apply (hasSelection_implies_hasCursor Scenario.cursor
           (set_selection Scenario.inside_selection Scenario.world)).
  reflexivity.
Defined.

(** ** What [_moveToNode] installs *)

Lemma document_only_Throw {A} (m : M A) (w w' : World) (e : Err) :
  document_only m → document w = document w' →
  extend_supported w = extend_supported w' →
  m w = Throw e w → m w' = Throw e w'.
Proof.
  intros H Hd He Hw. specialize (H w w' Hd He). rewrite Hw in H. tauto.
Qed.

(** The outcome of a document read, with the state it was run in. *)
Lemma document_only_final {A} (m : M A) (w : World) :
  document_only m → final_world (m w) = w.
Proof. intros H. by apply document_only_read_only. Qed.

Lemma findNodeForPosition_Ok_world (this : Cursor.t) (p : option Position)
    (w w' : World) (x : option Node * nat) :
  Cursor._findNodeForPosition this p w = Ok x w' → w' = w.
Proof.
  intros H.
  pose proof (document_only_final _ w
                (document_only_findNodeForPosition this p)) as Hf.
  by rewrite H in Hf.
Qed.

Lemma findNodeForPosition_Throw_world (this : Cursor.t)
    (p : option Position) (w w' : World) (e : Err) :
  Cursor._findNodeForPosition this p w = Throw e w' → w' = w.
Proof.
  intros H.
  pose proof (document_only_final _ w
                (document_only_findNodeForPosition this p)) as Hf.
  by rewrite H in Hf.
Qed.

(** The forward path in full: the span from the first endpoint to the
    second, or a range collapsed at the second when it comes first in the
    document. *)
Lemma moveToNode_forward_run (this : Cursor.t) (w : World)
    (hn : Node) (ho : nat) (tn : Node) (to_ : nat) (d : option DIRECTION) :
  d ≠ Some BACKWARD →
  valid_bp (document w) (hn, ho) = true →
  valid_bp (document w) (tn, to_) = true →
  Cursor._moveToNode this (Some hn) ho (Some tn) to_ d w
  = Ok () (set_selection
             {| sel_range :=
                  Some (if bp_before (tn, to_) (hn, ho)
                        then mkDomRange tn to_ tn to_
                        else mkDomRange hn ho tn to_);
                sel_direction := Forwards |} w).
Proof.
  intros Hd Hh Ht. unfold Cursor._moveToNode.
  assert (default FORWARD d = FORWARD) as -> by (by destruct d as [[]|]).
  step (clearSelection_run this w).
  destruct (decide (FORWARD = BACKWARD)) as [?|_]; [done|].
  unfold createRange. rewrite bind_ret.
  step (setStart_fresh hn ho (set_selection empty_selection w) Hh).
  rewrite bind_gets.
  replace (bool_decide (FORWARD = BACKWARD)) with false
    by (symmetry; by apply bool_decide_eq_false).
  cbn [andb].
  step (setEnd_run (mkDomRange hn ho hn ho) tn to_
          (set_selection empty_selection w) Ht).
  change (range_start (mkDomRange hn ho hn ho)) with ((hn, ho) : BoundaryPoint).
  reflexivity.
Qed.

(** The backward path without [selection.extend] in full. *)
Lemma moveToNode_backward_plain_run (this : Cursor.t) (w : World)
    (hn : Node) (ho : nat) (tn : Node) (to_ : nat) :
  valid_bp (document w) (hn, ho) = true →
  valid_bp (document w) (tn, to_) = true →
  extend_supported w = false →
  Cursor._moveToNode this (Some hn) ho (Some tn) to_ (Some BACKWARD) w
  = Ok () (set_selection
             {| sel_range :=
                  Some (if bp_before (hn, ho) (tn, to_)
                        then mkDomRange hn ho hn ho
                        else mkDomRange tn to_ hn ho);
                sel_direction := Forwards |} w).
Proof.
  intros Hh Ht Hext. unfold Cursor._moveToNode.
  change (default FORWARD (Some BACKWARD)) with BACKWARD.
  step (clearSelection_run this w).
  destruct (decide (BACKWARD = BACKWARD)) as [_|?]; [|done].
  unfold createRange. rewrite bind_ret.
  step (setStart_fresh tn to_ (set_selection empty_selection w) Ht).
  rewrite bind_gets.
  cbn [extend_supported set_selection]. rewrite Hext, andb_false_r.
  step (setEnd_run (mkDomRange tn to_ tn to_) hn ho
          (set_selection empty_selection w) Hh).
  change (range_start (mkDomRange tn to_ tn to_))
    with ((tn, to_) : BoundaryPoint).
  reflexivity.
Qed.

(** The backward path with [selection.extend] in full. *)
Lemma moveToNode_backward_extend_run (this : Cursor.t) (w : World)
    (hn : Node) (ho : nat) (tn : Node) (to_ : nat) :
  valid_bp (document w) (hn, ho) = true →
  valid_bp (document w) (tn, to_) = true →
  extend_supported w = true →
  Cursor._moveToNode this (Some hn) ho (Some tn) to_ (Some BACKWARD) w
  = Ok () (set_selection
             (if bp_after (tn, to_) (hn, ho)
              then {| sel_range := Some (mkDomRange hn ho tn to_);
                      sel_direction := Backwards |}
              else {| sel_range := Some (mkDomRange tn to_ hn ho);
                      sel_direction := Forwards |}) w).
Proof.
  intros Hh Ht Hext.
  rewrite (moveToNode_backward_extend this w hn ho tn to_ Ht Hext).
  rewrite (bind_Ok _ _ _ _ _ (clearSelection_run this w)).
  by apply collapse_then_extend_run.
Qed.

Lemma selectRange_resolved (this : Cursor.t) (w : World) (h t : Position)
    (d : option DIRECTION) (hn : Node) (ho : nat) (tn : Node) (to_ : nat) :
  Cursor._findNodeForPosition this (Some h) w = Ok (Some hn, ho) w →
  Cursor._findNodeForPosition this (Some t) w = Ok (Some tn, to_) w →
  Cursor.selectRange this (mkRange (Some h) (Some t) d) w
  = Cursor._moveToNode this (Some hn) ho (Some tn) to_ d w.
Proof.
  intros Hfh Hft. unfold Cursor.selectRange. cbn [head tail direction].
  step Hfh. step Hft. reflexivity.
Qed.



(** X4.  A range that is not marked backward is installed the same way on
    every platform: [selectRange] leaves one forwards range running from
    the head endpoint to the tail endpoint, so that the anchor is the head
    and the focus is the tail.  If the tail endpoint comes before the head
    endpoint in the document, the range is collapsed at the tail
    endpoint. *)
Theorem selectRange_forward_installs (this : Cursor.t) (w : World)
    (h t : Position) (d : option DIRECTION)
    (hn : Node) (ho : nat) (tn : Node) (to_ : nat) :
  Cursor._findNodeForPosition this (Some h) w = Ok (Some hn, ho) w →
  Cursor._findNodeForPosition this (Some t) w = Ok (Some tn, to_) w →
  valid_bp (document w) (hn, ho) = true →
  valid_bp (document w) (tn, to_) = true →
  d ≠ Some BACKWARD →
  ∃ s,
    Cursor.selectRange this (mkRange (Some h) (Some t) d) w
      = Ok () (set_selection s w) ∧
    sel_direction s = Forwards ∧
    sel_range s = Some (if bp_before (tn, to_) (hn, ho)
                        then mkDomRange tn to_ tn to_
                        else mkDomRange hn ho tn to_) ∧
    (bp_before (tn, to_) (hn, ho) = false →
     sel_anchor s = Some (hn, ho) ∧ sel_focus s = Some (tn, to_)).
Proof.
  intros Hfh Hft Hvh Hvt Hd. eexists. split.
  - rewrite (selectRange_resolved _ _ _ _ _ _ _ _ _ Hfh Hft).
    by apply moveToNode_forward_run.
  - split; [reflexivity|]. split; [reflexivity|].
    intros Hord. unfold sel_anchor, sel_focus. cbn [sel_range sel_direction].
    rewrite Hord. split; reflexivity.
Qed.

Lemma selectRange_forward_installs_witness :
  ∃ s,
    Cursor.selectRange Scenario.cursor
      (mkRange (Some Scenario.start_of_P1) (Some Scenario.end_of_P2)
         (Some FORWARD)) Scenario.world_without_extend
      = Ok () (set_selection s Scenario.world_without_extend) ∧
    sel_direction s = Forwards ∧
    sel_range s = Some (mkDomRange [0; 0; 0] 0 [0; 2; 0] 2) ∧
    (false = false →
     sel_anchor s = Some ([0; 0; 0], 0) ∧ sel_focus s = Some ([0; 2; 0], 2)).
Proof.
  exact (selectRange_forward_installs Scenario.cursor
           Scenario.world_without_extend Scenario.start_of_P1
           Scenario.end_of_P2 (Some FORWARD) [0; 0; 0] 0 [0; 2; 0] 2
           eq_refl eq_refl eq_refl eq_refl
           (λ H : Some FORWARD = Some BACKWARD,
              eq_ind (Some FORWARD)
                (λ o, match o with Some FORWARD => True | _ => False end)
                I _ H)).
Defined.

(** X5.  On a platform with [selection.extend], a range marked backward is
    installed with its anchor at the tail endpoint and its focus at the head
    endpoint, whatever their order; the native range runs between the two
    in document order, and is marked backwards exactly when the tail
    endpoint comes after the head endpoint. *)
Theorem selectRange_backward_extend_installs (this : Cursor.t) (w : World)
    (h t : Position) (hn : Node) (ho : nat) (tn : Node) (to_ : nat) :
  Cursor._findNodeForPosition this (Some h) w = Ok (Some hn, ho) w →
  Cursor._findNodeForPosition this (Some t) w = Ok (Some tn, to_) w →
  valid_bp (document w) (hn, ho) = true →
  valid_bp (document w) (tn, to_) = true →
  extend_supported w = true →
  ∃ s,
    Cursor.selectRange this (mkRange (Some h) (Some t) (Some BACKWARD)) w
      = Ok () (set_selection s w) ∧
    sel_anchor s = Some (tn, to_) ∧
    sel_focus s = Some (hn, ho) ∧
    sel_range s = Some (if bp_after (tn, to_) (hn, ho)
                        then mkDomRange hn ho tn to_
                        else mkDomRange tn to_ hn ho) ∧
    sel_direction s = (if bp_after (tn, to_) (hn, ho)
                       then Backwards else Forwards).
Proof.
  intros Hfh Hft Hvh Hvt Hext. eexists. split.
  - rewrite (selectRange_resolved _ _ _ _ _ _ _ _ _ Hfh Hft).
    by apply moveToNode_backward_extend_run.
  - destruct (bp_after (tn, to_) (hn, ho)); repeat split; reflexivity.
Qed.

Lemma selectRange_backward_extend_installs_witness :
  ∃ s,
    Cursor.selectRange Scenario.cursor Scenario.backward_drag Scenario.world
      = Ok () (set_selection s Scenario.world) ∧
    sel_anchor s = Some ([0; 2; 0], 2) ∧
    sel_focus s = Some ([0; 0; 0], 0) ∧
    sel_range s = Some (mkDomRange [0; 0; 0] 0 [0; 2; 0] 2) ∧
    sel_direction s = Backwards.
Proof.
  exact (selectRange_backward_extend_installs Scenario.cursor Scenario.world
           Scenario.start_of_P1 Scenario.end_of_P2 [0; 0; 0] 0 [0; 2; 0] 2
           eq_refl eq_refl eq_refl eq_refl eq_refl).
Defined.

(** After any of the three paths, the anchor is one of the two endpoints. *)
Lemma moveToNode_anchor (this : Cursor.t) (w : World)
    (hn : Node) (ho : nat) (tn : Node) (to_ : nat) (d : option DIRECTION) :
  valid_bp (document w) (hn, ho) = true →
  valid_bp (document w) (tn, to_) = true →
  ∃ s, Cursor._moveToNode this (Some hn) ho (Some tn) to_ d w
         = Ok () (set_selection s w) ∧
       (anchorNode s = Some hn ∨ anchorNode s = Some tn).
Proof.
  intros Hvh Hvt.
  destruct (decide (d = Some BACKWARD)) as [->|Hd].
  - destruct (extend_supported w) eqn:Hext.
    + eexists. split; [by apply moveToNode_backward_extend_run|].
      destruct (bp_after (tn, to_) (hn, ho)); right; reflexivity.
    + eexists. split; [by apply moveToNode_backward_plain_run|].
      destruct (bp_before (hn, ho) (tn, to_)); [left|right]; reflexivity.
  - eexists. split; [by apply moveToNode_forward_run|].
    destruct (bp_before (tn, to_) (hn, ho)); [right|left]; reflexivity.
Qed.

(** X6.  When both endpoints of a range resolve to native endpoints that the
    platform accepts and that lie in the editor element, [selectRange]
    returns normally and [hasCursor()] is [true] afterwards: for every
    direction, with or without [selection.extend], and whatever the order of
    the endpoints. *)
Theorem selectRange_leaves_cursor (this : Cursor.t) (w : World)
    (h t : Position) (d : option DIRECTION)
    (hn : Node) (ho : nat) (tn : Node) (to_ : nat) :
  Cursor._findNodeForPosition this (Some h) w = Ok (Some hn, ho) w →
  Cursor._findNodeForPosition this (Some t) w = Ok (Some tn, to_) w →
  valid_bp (document w) (hn, ho) = true →
  valid_bp (document w) (tn, to_) = true →
  containsNode (Editor.element (Cursor.editor this)) (Some hn) = true →
  containsNode (Editor.element (Cursor.editor this)) (Some tn) = true →
  ∃ w', Cursor.selectRange this (mkRange (Some h) (Some t) d) w = Ok () w' ∧
        Cursor.hasCursor this w' = Ok true w'.
Proof.
  intros Hfh Hft Hvh Hvt Hch Hct.
  destruct (moveToNode_anchor this w hn ho tn to_ d Hvh Hvt)
    as (s & Hrun & Hanchor).
  eexists. split.
  - rewrite (selectRange_resolved _ _ _ _ _ _ _ _ _ Hfh Hft). exact Hrun.
  - rewrite hasCursor_run. cbn [native_selection set_selection].
    destruct Hanchor as [-> | ->]; by rewrite ?Hch, ?Hct.
Qed.

Lemma selectRange_leaves_cursor_witness :
  ∃ w', Cursor.selectRange Scenario.cursor Scenario.backward_drag
          Scenario.world_without_extend = Ok () w' ∧
        Cursor.hasCursor Scenario.cursor w' = Ok true w'.
Proof.
  exact (selectRange_leaves_cursor Scenario.cursor
           Scenario.world_without_extend Scenario.start_of_P1
           Scenario.end_of_P2 (Some BACKWARD) [0; 0; 0] 0 [0; 2; 0] 2
           eq_refl eq_refl eq_refl eq_refl eq_refl eq_refl).
Defined.

(** X7.  [moveToPosition(p)] leaves a caret: one forwards range collapsed at
    the native endpoint of [p], on every platform, for which
    [hasSelection()] is [false]. *)
Theorem moveToPosition_leaves_caret (this : Cursor.t) (w : World)
    (p : Position) (n : Node) (o : nat) :
  Cursor._findNodeForPosition this (Some p) w = Ok (Some n, o) w →
  valid_bp (document w) (n, o) = true →
  let w' := set_selection {| sel_range := Some (mkDomRange n o n o);
                             sel_direction := Forwards |} w in
  Cursor.moveToPosition this p w = Ok () w' ∧
  Cursor.hasSelection this w' = Ok false w'.
Proof.
  intros Hf Hv w'. split.
  - unfold Cursor.moveToPosition.
    rewrite (selectRange_resolved _ _ _ _ _ _ _ _ _ Hf Hf).
    rewrite (moveToNode_forward_run this w n o n o None) by done.
    unfold bp_before. by rewrite bp_compare_refl.
  - unfold Cursor.hasSelection. rewrite hasSelection_run.
    cbn [native_selection set_selection w' sel_range].
    unfold collapsed, bp_eqb. by rewrite bp_compare_refl.
Qed.

Lemma moveToPosition_leaves_caret_witness :
  let w' := set_selection
              {| sel_range := Some (mkDomRange [0; 2; 0] 1 [0; 2; 0] 1);
                 sel_direction := Forwards |}
              Scenario.world_without_extend in
  Cursor.moveToPosition Scenario.cursor Scenario.middle_of_P2
    Scenario.world_without_extend = Ok () w' ∧
  Cursor.hasSelection Scenario.cursor w' = Ok false w'.
Proof.
  exact (moveToPosition_leaves_caret Scenario.cursor
           Scenario.world_without_extend Scenario.middle_of_P2 [0; 2; 0] 1
           eq_refl eq_refl).
Defined.

(** ** When [selectRange] fails *)

(** X8.  [selectRange] resolves both endpoints before it touches the
    selection: if [_findNodeForPosition] throws on the head, or on the tail
    after the head resolved, [selectRange] throws the same exception and the
    browser state, the selection included, is exactly as before. *)
Theorem selectRange_unresolved_keeps_selection (this : Cursor.t)
    (r : Range) (w : World) (e : Err) :
  (∃ v, Cursor._findNodeForPosition this (head r) w = Throw e v) ∨
  (∃ x v v', Cursor._findNodeForPosition this (head r) w = Ok x v ∧
             Cursor._findNodeForPosition this (tail r) w = Throw e v') →
  Cursor.selectRange this r w = Throw e w.
Proof.
  intros [(v & Hh)|(x & v & v' & Hh & Ht)]; unfold Cursor.selectRange, bind.
  - rewrite Hh. by apply findNodeForPosition_Throw_world in Hh as ->.
  - rewrite Hh. apply findNodeForPosition_Ok_world in Hh as ->.
    destruct x as [hn ho]. rewrite Ht.
    by apply findNodeForPosition_Throw_world in Ht as ->.
Qed.

Lemma selectRange_unresolved_keeps_selection_witness :
  let w := set_selection Scenario.inside_selection Scenario.world in
  Cursor.selectRange Scenario.cursor
    (mkRange (Some Scenario.start_of_P1) (Some Scenario.beyond_P1) None) w
  = Throw TypeError w.
Proof.
  apply (selectRange_unresolved_keeps_selection Scenario.cursor
           (mkRange (Some Scenario.start_of_P1) (Some Scenario.beyond_P1)
              None)
           (set_selection Scenario.inside_selection Scenario.world)
           TypeError).
  right. eexists _, _, _. split; reflexivity.
Defined.

Lemma check_bp_cleared (n : option Node) (o : nat) (w : World) (e : Err) :
  check_bp n o w = Throw e w →
  check_bp n o (set_selection empty_selection w)
  = Throw e (set_selection empty_selection w).
Proof.
  apply document_only_Throw;
    [apply document_only_check_bp|reflexivity|reflexivity].
Qed.

(** X9.  [_moveToNode] clears the selection before it builds the new range:
    when the platform rejects the endpoint it sets first, or, outside the
    [extend] path, the endpoint it sets second, [_moveToNode] throws and the
    selection that was there is gone (no range is left). *)
Theorem moveToNode_rejected_endpoint_clears (this : Cursor.t) (w : World)
    (node : option Node) (offset : nat) (endNode : option Node)
    (endOffset : nat) (d : option DIRECTION) (e : Err) :
  let backward := bool_decide (default FORWARD d = BACKWARD) in
  let first := if backward then (endNode, endOffset) else (node, offset) in
  let second := if backward then (node, offset) else (endNode, endOffset) in
  check_bp first.1 first.2 w = Throw e w ∨
  (backward && extend_supported w = false ∧
   (∃ bp, check_bp first.1 first.2 w = Ok bp w) ∧
   check_bp second.1 second.2 w = Throw e w) →
  Cursor._moveToNode this node offset endNode endOffset d w
  = Throw e (set_selection empty_selection w).
Proof.
  intros backward first second H. unfold Cursor._moveToNode.
  step (clearSelection_run this w).
  assert (Hstart : ∀ bp, check_bp first.1 first.2 w = Ok bp w →
            setStart (mkDomRange [] 0 [] 0) first.1 first.2
              (set_selection empty_selection w)
            = Ok (mkDomRange bp.1 bp.2 bp.1 bp.2)
                 (set_selection empty_selection w)).
  { intros [n o] Hbp. destruct first.1 as [n'|] eqn:Hn1; [|done].
    assert (Hv : valid_bp (document w) (n', first.2) = true).
    { revert Hbp. unfold check_bp, valid_bp, gets, bind, ret; simpl.
      destruct (node_length (document w) n'); [|done].
      destruct (bool_decide (first.2 ≤ n0)); done. }
    rewrite (check_bp_run _ _ _ Hv) in Hbp. injection Hbp as <- <-.
    by apply setStart_fresh. }
  subst backward first second.
  destruct (decide (default FORWARD d = BACKWARD)) as [Hb|Hb].
  - rewrite (bool_decide_eq_true_2 _ Hb) in *. cbn [fst snd] in *.
    unfold createRange. rewrite bind_ret.
    destruct H as [H|(Hext & [bp Hbp] & H)].
    + unfold setStart. unfold bind at 1 2.
      by rewrite (check_bp_cleared _ _ _ _ H).
    + step (Hstart bp Hbp). rewrite bind_gets.
      cbn [extend_supported set_selection]. cbn [andb] in Hext.
      rewrite Hext. cbn [andb].
      unfold setEnd. unfold bind at 1 2.
      by rewrite (check_bp_cleared _ _ _ _ H).
  - rewrite (bool_decide_eq_false_2 _ Hb) in *. cbn [fst snd] in *.
    unfold createRange. rewrite bind_ret.
    destruct H as [H|(_ & [bp Hbp] & H)].
    + unfold setStart. unfold bind at 1 2.
      by rewrite (check_bp_cleared _ _ _ _ H).
    + step (Hstart bp Hbp). rewrite bind_gets. cbn [andb].
      unfold setEnd. unfold bind at 1 2.
      by rewrite (check_bp_cleared _ _ _ _ H).
Qed.

Lemma moveToNode_rejected_endpoint_clears_witness :
  Cursor._moveToNode Scenario.cursor (Some [0; 0; 0]) 9 (Some [0; 2; 0]) 2
    None (set_selection Scenario.inside_selection Scenario.world)
  = Throw IndexSizeError Scenario.world.
Proof.
  apply (moveToNode_rejected_endpoint_clears Scenario.cursor
           (set_selection Scenario.inside_selection Scenario.world)
           (Some [0; 0; 0]) 9 (Some [0; 2; 0]) 2 None IndexSizeError).
  left. reflexivity.
Defined.

(** X10.  On the [extend] path the collapsed range is added before the
    selection is extended: when the platform accepts the tail endpoint but
    rejects the head endpoint of a backward range, [_moveToNode] throws and
    leaves a caret at the tail endpoint. *)
Theorem moveToNode_extend_rejected_leaves_caret (this : Cursor.t)
    (w : World) (node : option Node) (offset : nat)
    (tn : Node) (to_ : nat) (e : Err) :
  extend_supported w = true →
  valid_bp (document w) (tn, to_) = true →
  check_bp node offset w = Throw e w →
  Cursor._moveToNode this node offset (Some tn) to_ (Some BACKWARD) w
  = Throw e (set_selection
               {| sel_range := Some (mkDomRange tn to_ tn to_);
                  sel_direction := Forwards |} w).
Proof.
  intros Hext Ht Hbad. unfold Cursor._moveToNode.
  change (default FORWARD (Some BACKWARD)) with BACKWARD.
  step (clearSelection_run this w).
  destruct (decide (BACKWARD = BACKWARD)) as [_|?]; [|done].
  unfold createRange. rewrite bind_ret.
  step (setStart_fresh tn to_ (set_selection empty_selection w) Ht).
  rewrite bind_gets. cbn [extend_supported set_selection]. rewrite Hext.
  replace (bool_decide (BACKWARD = BACKWARD)) with true
    by (symmetry; by apply bool_decide_eq_true).
  cbn [andb].
  rewrite (bind_Ok _ _ _
             (set_selection {| sel_range := Some (mkDomRange tn to_ tn to_);
                               sel_direction := Forwards |} w) ())
    by reflexivity.
  unfold extend. unfold bind at 1.
  by rewrite (document_only_Throw _ w
                (set_selection
                   {| sel_range := Some (mkDomRange tn to_ tn to_);
                      sel_direction := Forwards |} w) e
                (document_only_check_bp node offset) eq_refl eq_refl Hbad).
Qed.

Lemma moveToNode_extend_rejected_leaves_caret_witness :
  Cursor._moveToNode Scenario.cursor (Some [0; 0; 0]) 9 (Some [0; 2; 0]) 2
    (Some BACKWARD) Scenario.world
  = Throw IndexSizeError
      (set_selection {| sel_range := Some (mkDomRange [0; 2; 0] 2 [0; 2; 0] 2);
                        sel_direction := Forwards |} Scenario.world).
Proof.
  exact (moveToNode_extend_rejected_leaves_caret Scenario.cursor
           Scenario.world (Some [0; 0; 0]) 9 [0; 2; 0] 2 IndexSizeError
           eq_refl eq_refl eq_refl).
Defined.

(** ** How the commands compose *)

(** X11.  [selectSections] looks only at the first and the last element of
    the array: two arrays with the same first element and the same last
    element are selected alike, whatever lies between. *)
Theorem selectSections_only_ends_matter (this : Cursor.t)
    (l l' : list PostSection.t) (w : World) :
  l !! 0 = l' !! 0 → last l = last l' →
  Cursor.selectSections this l w = Cursor.selectSections this l' w.
Proof.
  intros Hfirst Hlast. unfold Cursor.selectSections.
  replace (length l - 1) with (pred (length l)) by lia.
  replace (length l' - 1) with (pred (length l')) by lia.
  by rewrite <- !last_lookup, Hfirst, Hlast.
Qed.

Lemma selectSections_only_ends_matter_witness :
  Cursor.selectSections Scenario.cursor
    [Scenario.P1; Scenario.Card; Scenario.P2] Scenario.world
  = Cursor.selectSections Scenario.cursor
      [Scenario.P1; Scenario.P2] Scenario.world.
Proof.
  exact (selectSections_only_ends_matter Scenario.cursor
           [Scenario.P1; Scenario.Card; Scenario.P2]
           [Scenario.P1; Scenario.P2] Scenario.world eq_refl eq_refl).
Defined.

Lemma selection_only_world (w w' : World) :
  document w' = document w → extend_supported w' = extend_supported w →
  w' = set_selection (native_selection w') w.
Proof. destruct w, w'; simpl. by intros -> ->. Qed.

(** X12.  The last command wins: a [selectRange] that succeeds from some
    state ends in the same state when it is run after any other successful
    [selectRange] from that state.  In particular [selectRange] is
    idempotent. *)
Theorem selectRange_overwrites (this : Cursor.t) (r1 r2 : Range)
    (w w1 w2 : World) :
  Cursor.selectRange this r1 w = Ok () w1 →
  Cursor.selectRange this r2 w = Ok () w2 →
  Cursor.selectRange this r2 w1 = Ok () w2.
Proof.
  intros H1 H2.
  destruct (installs_selection_selectRange this r1 w w1 H1) as (_ & Hd & He).
  rewrite (selection_only_world w w1 Hd He).
  by apply (installs_selection_selectRange this r2 w w2 H2).
Qed.

Lemma selectRange_overwrites_witness :
  let w1 := set_selection
              {| sel_range := Some (mkDomRange [0; 0; 0] 0 [0; 2; 0] 2);
                 sel_direction := Backwards |} Scenario.world in
  let w2 := set_selection
              {| sel_range := Some (mkDomRange [0; 2; 0] 1 [0; 2; 0] 1);
                 sel_direction := Forwards |} Scenario.world in
  Cursor.selectRange Scenario.cursor Scenario.backward_drag Scenario.world
    = Ok () w1 ∧
  Cursor.selectRange Scenario.cursor Scenario.forward_caret w1 = Ok () w2.
Proof.
  split; [reflexivity|].
  exact (selectRange_overwrites Scenario.cursor Scenario.backward_drag
           Scenario.forward_caret Scenario.world _ _ eq_refl eq_refl).
Defined.

(** ** Endpoints outside the editor, and what the queries consult *)

(** X13.  [selectRange] does not check that the endpoints lie in the editor
    element.  When both resolve to native endpoints that the platform
    accepts but that lie outside the editor element, [selectRange] still
    returns normally and installs the selection, after which [hasCursor()]
    is [false] and [offsets] is the empty range. *)
Theorem selectRange_outside_editor (this : Cursor.t) (w : World)
    (h t : Position) (d : option DIRECTION)
    (hn : Node) (ho : nat) (tn : Node) (to_ : nat) :
  Cursor._findNodeForPosition this (Some h) w = Ok (Some hn, ho) w →
  Cursor._findNodeForPosition this (Some t) w = Ok (Some tn, to_) w →
  valid_bp (document w) (hn, ho) = true →
  valid_bp (document w) (tn, to_) = true →
  containsNode (Editor.element (Cursor.editor this)) (Some hn) = false →
  containsNode (Editor.element (Cursor.editor this)) (Some tn) = false →
  ∃ w', Cursor.selectRange this (mkRange (Some h) (Some t) d) w = Ok () w' ∧
        rangeCount (native_selection w') = 1 ∧
        Cursor.hasCursor this w' = Ok false w' ∧
        Cursor.offsets this w' = Ok emptyRange w'.
Proof.
  intros Hfh Hft Hvh Hvt Hch Hct.
  destruct (moveToNode_anchor this w hn ho tn to_ d Hvh Hvt)
    as (s & Hrun & Hanchor).
  assert (Hno : Cursor.hasCursor this (set_selection s w)
                = Ok false (set_selection s w)).
  { rewrite hasCursor_run. cbn [native_selection set_selection].
    destruct Hanchor as [-> | ->]; by rewrite ?Hch, ?Hct. }
  eexists. split; [|split; [|split; [exact Hno|]]].
  - rewrite (selectRange_resolved _ _ _ _ _ _ _ _ _ Hfh Hft). exact Hrun.
  - cbn [native_selection set_selection]. unfold rangeCount.
    destruct (sel_range s) eqn:Hr; [done|].
    unfold anchorNode, sel_anchor in Hanchor. rewrite Hr in Hanchor.
    by destruct Hanchor.
  - unfold Cursor.offsets. by step Hno.
Qed.

Lemma selectRange_outside_editor_witness :
  ∃ w', Cursor.selectRange Scenario.cursor
          (mkRange (Some Scenario.start_of_POut) (Some Scenario.end_of_POut)
             (Some FORWARD)) Scenario.world = Ok () w' ∧
        rangeCount (native_selection w') = 1 ∧
        Cursor.hasCursor Scenario.cursor w' = Ok false w' ∧
        Cursor.offsets Scenario.cursor w' = Ok emptyRange w'.
Proof.
  exact (selectRange_outside_editor Scenario.cursor Scenario.world
           Scenario.start_of_POut Scenario.end_of_POut (Some FORWARD)
           [1; 0] 0 [1; 0] 7 eq_refl eq_refl eq_refl eq_refl eq_refl eq_refl).
Defined.

(** An exception of [_findNodeForPosition] is a [TypeError], and the state
    is left alone. *)
Lemma findNodeForPosition_throws_TypeError (this : Cursor.t)
    (p : option Position) (w v : World) (e : Err) :
  Cursor._findNodeForPosition this p w = Throw e v → e = TypeError ∧ v = w.
Proof.
  intros H. split; [|by eapply findNodeForPosition_Throw_world].
  revert H. unfold Cursor._findNodeForPosition, firstChild, lastChild, gets,
    bind, ret, throw.
  destruct p as [p|]; [|by intros [= <- _]].
  destruct (PostSection.isCardSection (section p)).
  { by destruct (decide (offset p = 0)) as [_|_]. }
  destruct (PostSection.isBlank (section p)); [done|].
  destruct (marker p); [done|]. by intros [= <- _].
Qed.

(** X14.  For a position whose section is rendered, and whose marker, when
    it has one, is rendered (the sections and markers of this development
    all are: they carry their render node and its element),
    [_findNodeForPosition] fails exactly when the section is neither a card
    nor blank and the position has no marker; it then throws a [TypeError]
    and leaves the browser state alone.  So among rendered positions those
    in card and blank sections resolve whatever their offset and marker. *)
Theorem findNodeForPosition_throws_iff (this : Cursor.t) (p : Position)
    (w : World) :
  (Cursor._findNodeForPosition this (Some p) w = Throw TypeError w ↔
   PostSection.isCardSection (section p) = false ∧
   PostSection.isBlank (section p) = false ∧
   marker p = None) ∧
  (∀ e v, Cursor._findNodeForPosition this (Some p) w = Throw e v →
          e = TypeError ∧ v = w).
Proof.
  split; [|intros e v; apply findNodeForPosition_throws_TypeError].
  unfold Cursor._findNodeForPosition, firstChild, lastChild, gets, bind, ret,
    throw.
  destruct (PostSection.isCardSection (section p)).
  { split; [|by intros [? _]].
    destruct (decide (offset p = 0)) as [_|_]; by intros H. }
  destruct (PostSection.isBlank (section p)).
  { split; [by intros H|by intros (_ & ? & _)]. }
  destruct (marker p).
  - split; [by intros H|by intros (_ & _ & ?)].
  - split; done.
Qed.

Lemma document_only_isAddressable (this : Cursor.t) (e : Node) :
  document_only (Cursor.isAddressable this e).
Proof. unfold Cursor.isAddressable. solve_document_only. Qed.

(** X15.  [isAddressable] does not consult the native selection: its answer
    for an element is the same whatever is selected. *)
Theorem isAddressable_ignores_selection (this : Cursor.t) (e : Node)
    (w : World) (b : bool) (s : Selection) :
  Cursor.isAddressable this e w = Ok b w →
  Cursor.isAddressable this e (set_selection s w)
  = Ok b (set_selection s w).
Proof.
  apply document_only_Ok;
    [apply document_only_isAddressable|reflexivity|reflexivity].
Qed.

Lemma isAddressable_ignores_selection_witness :
  Cursor.isAddressable Scenario.cursor [0; 1; 1] Scenario.world
    = Ok false Scenario.world ∧
  Cursor.isAddressable Scenario.cursor [0; 1; 1]
    (set_selection Scenario.inside_selection Scenario.world)
  = Ok false (set_selection Scenario.inside_selection Scenario.world).
Proof.
  split; [reflexivity|].
  exact (isAddressable_ignores_selection Scenario.cursor [0; 1; 1]
           Scenario.world false Scenario.inside_selection eq_refl).
Defined.

(** X16.  For a range whose head and tail are the same position, the
    direction of the range and the presence of [selection.extend] make no
    difference: [selectRange] leaves one forwards range collapsed at the
    position's native endpoint. *)
Theorem selectRange_caret_any_direction (this : Cursor.t) (w : World)
    (p : Position) (d : option DIRECTION) (n : Node) (o : nat) :
  Cursor._findNodeForPosition this (Some p) w = Ok (Some n, o) w →
  valid_bp (document w) (n, o) = true →
  Cursor.selectRange this (mkRange (Some p) (Some p) d) w
  = Ok () (set_selection {| sel_range := Some (mkDomRange n o n o);
                            sel_direction := Forwards |} w).
Proof.
  intros Hf Hv. rewrite (selectRange_resolved _ _ _ _ _ _ _ _ _ Hf Hf).
  assert (Hb : bp_before (n, o) (n, o) = false)
    by (unfold bp_before; by rewrite bp_compare_refl).
  assert (Ha : bp_after (n, o) (n, o) = false)
    by (unfold bp_after; by rewrite bp_compare_refl).
  destruct (decide (d = Some BACKWARD)) as [->|Hd].
  - destruct (extend_supported w) eqn:Hext.
    + rewrite moveToNode_backward_extend_run by done. by rewrite Ha.
    + rewrite moveToNode_backward_plain_run by done. by rewrite Hb.
  - rewrite moveToNode_forward_run by done. by rewrite Hb.
Qed.

Lemma selectRange_caret_any_direction_witness :
  Cursor.selectRange Scenario.cursor Scenario.backward_caret
    Scenario.world_without_extend
  = Ok () (set_selection
             {| sel_range := Some (mkDomRange [0; 2; 0] 1 [0; 2; 0] 1);
                sel_direction := Forwards |} Scenario.world_without_extend).
Proof.
  exact (selectRange_caret_any_direction Scenario.cursor
           Scenario.world_without_extend Scenario.middle_of_P2
           (Some BACKWARD) [0; 2; 0] 1 eq_refl eq_refl).
Defined.
